(** * GradientPolicy (mjpc/planners/gradient/policy.cc)

    A shallow embedding of the gradient planner's spline policy: the
    fixed-capacity knot store, [Reset], [Action], [CopyFrom] and
    [CopyParametersFrom].

    Conventions of the embedding.
    - [double] values are exact rationals in canonical form ([Qc]); rounding,
      infinities and NaN are outside the model.
    - C++ [int] values are [Z].  Every count that reaches a buffer is checked
      against the buffer it addresses, so a negative count ends in
      [Undefined], and so does a product too large for an [int], which is
      too large for any buffer as well.  Where a sum or product sets a size
      instead ([Allocate]), it goes through [int_add] and [int_mul], which
      are [Undefined] outside the range of [int].
    - [std::vector<double>] is [list double]; a method that mutates the object
      returns the new object.
    - A call either returns ([Ok]), is stopped by a collaborator that checks
      its precondition ([Abort]), or touches memory outside a buffer
      ([Undefined]: C++ gives such a program no meaning). *)

From Stdlib Require Import ZArith List Lia Bool QArith Qcanon.
Import ListNotations.
Local Open Scope Z_scope.

(** ** Numbers *)

Definition double : Type := Qc.

Definition d_zero : double := 0%Qc.
Definition d_one : double := 1%Qc.
Definition d_half : double := (1 / (1 + 1))%Qc.

(** [x <= y] and [x < y] on doubles, as booleans. *)
Definition dle (x y : double) : bool := Qle_bool x y.
Definition dlt (x y : double) : bool := negb (Qle_bool y x).

(** ** Outcomes of a call *)

Inductive outcome (A : Type) : Type :=
| Ok (a : A)
| Abort
| Undefined.

Arguments Ok {A} a.
Arguments Abort {A}.
Arguments Undefined {A}.

Definition bind {A B : Type} (m : outcome A) (f : A -> outcome B) : outcome B :=
  match m with
  | Ok a => f a
  | Abort => Abort
  | Undefined => Undefined
  end.

Notation "x <- m ;; f" := (bind m (fun x => f))
  (at level 61, m at next level, right associativity).

(** ** Buffers *)

(** [n] is a valid element count for [v]: [v.begin() + n] stays inside [v]. *)
Definition in_range (n : Z) (v : list double) : bool :=
  (0 <=? n) && (n <=? Z.of_nat (length v)).

(** [std::fill(v.begin(), v.begin() + n, 0.0)]. *)
Definition fill_zero (v : list double) (n : Z) : outcome (list double) :=
  if in_range n v
  then Ok (repeat d_zero (Z.to_nat n) ++ skipn (Z.to_nat n) v)
  else Undefined.

(** MuJoCo's [mju_copy(res, vec, n)]: [res[i] = vec[i]] for [i < n]; both
    arrays must hold [n] entries. *)
Definition mju_copy (res vec : list double) (n : Z) : outcome (list double) :=
  if in_range n res && in_range n vec
  then Ok (firstn (Z.to_nat n) vec ++ skipn (Z.to_nat n) res)
  else Undefined.

(** Reading [v[i]]. *)
Definition load (v : list double) (i : Z) : outcome double :=
  if 0 <=? i
  then match nth_error v (Z.to_nat i) with
       | Some x => Ok x
       | None => Undefined
       end
  else Undefined.

(** Reading the [len] entries [v[off], ..., v[off + len - 1]]
    (the [mju_copy(output, ys + off, len)] of the kernels). *)
Definition window (v : list double) (off len : Z) : outcome (list double) :=
  if (0 <=? off) && (0 <=? len) && (off + len <=? Z.of_nat (length v))
  then Ok (firstn (Z.to_nat len) (skipn (Z.to_nat off) v))
  else Undefined.

(** MuJoCo's [mju_clip(x, min, max)]. *)
Definition mju_clip (x lo hi : double) : double :=
  if dlt x lo then lo else if dlt hi x then hi else x.

(** ** The model ([mjModel], the fields the policy reads) *)

Record mjModel : Type := {
  nq : Z;                              (* number of generalized coordinates *)
  nv : Z;                              (* number of degrees of freedom *)
  na : Z;                              (* number of activation states *)
  nu : Z;                              (* number of actuators *)
  actuator_ctrlrange : list double     (* nu x 2: lo_0, hi_0, lo_1, hi_1, ... *)
}.

(** ** The task ([Task], the one member [Allocate] reads) *)

Record Task : Type := {
  num_residual : Z
}.

(** ** Arithmetic on [int] *)

Definition INT_MIN : Z := -2147483648.
Definition INT_MAX : Z := 2147483647.

Definition int_range (z : Z) : bool := (INT_MIN <=? z) && (z <=? INT_MAX).

(** [a + b] and [a * b] on [int]: a result outside the range of [int] is
    undefined. *)
Definition int_add (a b : Z) : outcome Z :=
  if int_range (a + b) then Ok (a + b) else Undefined.

Definition int_mul (a b : Z) : outcome Z :=
  if int_range (a * b) then Ok (a * b) else Undefined.

(** ** Helpers of utilities.h *)

(** Modelled from the spec: the search inside [FindInterval] (utilities.h),
    see below.  Index of the first entry of [seq] that is strictly greater
    than [value], or the length of [seq] when there is none. *)
Fixpoint upper_bound (seq : list double) (value : double) : nat :=
  match seq with
  | [] => O
  | x :: rest => if dlt value x then O else S (upper_bound rest value)
  end.

(** Modelled from the spec: [FindInterval] is declared in utilities.h and its
    body is not part of this file.  Spec 4.3 step 1 and 6: it returns the
    bracketing pair [(i0, i1)] of [times[0..count)] with
    [times[i0] <= t <= times[i1]], and both indices equal to the nearest
    boundary index when [t] lies outside the active time range.  Where the
    spec is silent the model takes [i0] to be the last knot whose time is at
    most [t], and [(0, 0)] when there is no knot at all. *)
Definition FindInterval (sequence : list double) (value : double) (length : Z)
  : outcome (Z * Z) :=
  if in_range length sequence then
    let upper := Z.of_nat (upper_bound (firstn (Z.to_nat length) sequence) value) in
    let lower := upper - 1 in
    if lower <? 0 then Ok (0, 0)
    else Ok (lower, Z.min upper (length - 1))
  else Undefined.

(** Modelled from the spec: [ZeroInterpolation] (utilities.h).  Spec 4.3
    step 2: the output is [parameters[i0]] verbatim. *)
Definition ZeroInterpolation (x : double) (xs ys : list double) (dim length : Z)
  : outcome (list double) :=
  b <- FindInterval xs x length ;;
  window ys (dim * fst b) dim.

(** Modelled from the spec: one component of the linear rule of spec 4.3
    step 2 at normalised position [s] (part of [LinearInterpolation],
    utilities.h). *)
Definition lerp (s p0 p1 : double) : double :=
  ((1 - s) * p0 + s * p1)%Qc.

(** Modelled from the spec: the linear rule of spec 4.3 step 2 on the segment
    [(i0, i1)] (part of [LinearInterpolation], utilities.h). *)
Definition linear_segment (x : double) (xs ys : list double) (dim i0 i1 : Z)
  : outcome (list double) :=
  x0 <- load xs i0 ;;
  x1 <- load xs i1 ;;
  p0 <- window ys (dim * i0) dim ;;
  p1 <- window ys (dim * i1) dim ;;
  let s := ((x - x0) / (x1 - x0))%Qc in
  Ok (map (fun pq => lerp s (fst pq) (snd pq)) (combine p0 p1)).

(** Modelled from the spec: [LinearInterpolation] (utilities.h).  Spec 4.3
    step 2: each component is the linear interpolation of [parameters[i0]]
    and [parameters[i1]] weighted by the normalised position of [t] within
    [[times[i0], times[i1]]]; a degenerate pair resolves to hold. *)
Definition LinearInterpolation (x : double) (xs ys : list double) (dim length : Z)
  : outcome (list double) :=
  b <- FindInterval xs x length ;;
  if fst b =? snd b then window ys (dim * fst b) dim
  else linear_segment x xs ys dim (fst b) (snd b).

(** Modelled from the spec: one component of the cubic Hermite segment that
    spec 9 suggests for [CubicInterpolation] (utilities.h), of width [h] with
    end values [p0], [p1] and end slopes [m0], [m1], at normalised position
    [s]. *)
Definition hermite (s h p0 m0 p1 m1 : double) : double :=
  ((((1 + 1) * s * s * s - (1 + 1 + 1) * s * s + 1) * p0
    + (s * s * s - (1 + 1) * s * s + s) * h * m0)
   + ((- ((1 + 1) * s * s * s) + (1 + 1 + 1) * s * s) * p1
      + (s * s * s - s * s) * h * m1))%Qc.

Section Policy.

(** The reference trajectory ([Trajectory], trajectory.h) is opaque to the
    policy: its type and its [Reset] are parameters.  [Trajectory_Reset]
    may itself stop on a horizon it rejects. *)
Context {Trajectory : Type}.
Variable Trajectory_Reset : Z -> Trajectory -> outcome Trajectory.

(** The derivative estimate of the smooth kernel, which spec 9 leaves to
    the implementer: [slope xs ys dim length i d] is the slope given to
    component [d] at knot [i]. *)
Variable slope : list double -> list double -> Z -> Z -> Z -> Z -> double.

(** Capacity of every buffer, in knots ([kMaxTrajectoryHorizon]). *)
Variable kMaxTrajectoryHorizon : Z.

(** Modelled from the spec: the cubic rule on an interior segment [(i0, i1)]
    (part of [CubicInterpolation], utilities.h). *)
Definition cubic_segment (x : double) (xs ys : list double)
           (dim length i0 i1 : Z) : outcome (list double) :=
  x0 <- load xs i0 ;;
  x1 <- load xs i1 ;;
  p0 <- window ys (dim * i0) dim ;;
  p1 <- window ys (dim * i1) dim ;;
  let h := (x1 - x0)%Qc in
  let s := ((x - x0) / h)%Qc in
  Ok (map (fun d =>
             hermite s h
                     (nth d p0 d_zero) (slope xs ys dim length i0 (Z.of_nat d))
                     (nth d p1 d_zero) (slope xs ys dim length i1 (Z.of_nat d)))
          (seq 0 (Z.to_nat dim))).

(** Modelled from the spec: [CubicInterpolation] (utilities.h).  Spec 4.3
    step 2 and 9: a cubic Hermite segment through the adjacent knot pair
    with slopes estimated from the neighbours, falling back to the linear
    rule on the first and last active segment; a degenerate pair resolves
    to hold. *)
Definition CubicInterpolation (x : double) (xs ys : list double)
           (dim length : Z) : outcome (list double) :=
  b <- FindInterval xs x length ;;
  if fst b =? snd b then window ys (dim * fst b) dim
  else if (fst b =? 0) || (snd b =? length - 1)
       then linear_segment x xs ys dim (fst b) (snd b)
       else cubic_segment x xs ys dim length (fst b) (snd b).

(** Modelled from the spec: the loop of [Clamp] (utilities.h),
    [x[i] = mju_clip(x[i], bounds[2i], bounds[2i+1])] for the first [n]
    entries. *)
Fixpoint Clamp_loop (x bounds : list double) (n : nat) : outcome (list double) :=
  match n with
  | O => Ok x
  | S n' =>
      match x, bounds with
      | xi :: x', lo :: hi :: bounds' =>
          r <- Clamp_loop x' bounds' n' ;;
          Ok (mju_clip xi lo hi :: r)
      | _, _ => Undefined
      end
  end.

(** Modelled from the spec: [Clamp] (utilities.h).  Spec 4.3 step 3:
    each of the [n] components is clipped, on its own, to its
    actuator's [[lo, hi]]. *)
Definition Clamp (x bounds : list double) (n : Z) : outcome (list double) :=
  Clamp_loop x bounds (Z.to_nat n).

(** Modelled from the spec: the enumeration [PolicyRepresentation] is
    declared in planners/policy.h.  Spec 3: one of Hold, Linear, Smooth; the
    constructors carry the names policy.cc refers to. *)
Inductive PolicyRepresentation : Type :=
| kZeroSpline
| kLinearSpline
| kCubicSpline.

Definition representation_eqb (a b : PolicyRepresentation) : bool :=
  match a, b with
  | kZeroSpline, kZeroSpline => true
  | kLinearSpline, kLinearSpline => true
  | kCubicSpline, kCubicSpline => true
  | _, _ => false
  end.

(** The data members of [GradientPolicy]. *)
Record GradientPolicy : Type := {
  model : mjModel;
  trajectory : Trajectory;               (* reference trajectory *)
  k : list double;                       (* action improvement *)
  parameters : list double;
  parameter_update : list double;
  times : list double;
  num_parameters : Z;
  num_spline_points : Z;
  representation : PolicyRepresentation
}.

(** [Trajectory::Initialize] and [Trajectory::Allocate] (trajectory.h), like
    the trajectory itself, are parameters. *)
Variable Trajectory_Initialize : Z -> Z -> Z -> Z -> Trajectory -> outcome Trajectory.
Variable Trajectory_Allocate : Z -> Trajectory -> outcome Trajectory.

(** The two calls of [GetNumberOrDefault] (utilities.h), one per key:
    [GetNumberOrDefault(d, model, "gradient_spline_points")] and
    [GetNumberOrDefault(d, model, "gradient_representation")].  What they
    read from the model is left open. *)
Variable GetNumberOrDefault_spline_points : Z -> mjModel -> Z.
Variable GetNumberOrDefault_representation :
  PolicyRepresentation -> mjModel -> PolicyRepresentation.

(** [std::vector::resize(n)] called with an [int]: the old prefix is kept
    and new entries are zero.  A negative [n] converts to a size beyond
    [max_size()], which [resize] rejects with [std::length_error]. *)
Definition resize (v : list double) (n : Z) : outcome (list double) :=
  if 0 <=? n
  then Ok (firstn (Z.to_nat n) v ++ repeat d_zero (Z.to_nat n - length v))
  else Abort.

(** [GradientPolicy::Allocate]; its [horizon] argument is not used. *)
Definition Allocate (m : mjModel) (task : Task) (horizon : Z)
           (p : GradientPolicy) : outcome GradientPolicy :=
  dim_qv <- int_add (nq m) (nv m) ;;
  dim_state <- int_add dim_qv (na m) ;;
  trajectory1 <- Trajectory_Initialize dim_state (nu m) (num_residual task)
                                       kMaxTrajectoryHorizon (trajectory p) ;;
  trajectory2 <- Trajectory_Allocate kMaxTrajectoryHorizon trajectory1 ;;
  size_k <- int_mul (nu m) kMaxTrajectoryHorizon ;;
  k' <- resize (k p) size_k ;;
  size_parameters <- int_mul (nu m) kMaxTrajectoryHorizon ;;
  parameters' <- resize (parameters p) size_parameters ;;
  size_parameter_update <- int_mul (nu m) kMaxTrajectoryHorizon ;;
  parameter_update' <- resize (parameter_update p) size_parameter_update ;;
  times' <- resize (times p) kMaxTrajectoryHorizon ;;
  num_parameters' <- int_mul (nu m) kMaxTrajectoryHorizon ;;
  Ok {| model := m;
        trajectory := trajectory2;
        k := k';
        parameters := parameters';
        parameter_update := parameter_update';
        times := times';
        num_parameters := num_parameters';
        num_spline_points :=
          GetNumberOrDefault_spline_points kMaxTrajectoryHorizon m;
        representation :=
          GetNumberOrDefault_representation kLinearSpline m |}.

(** [GradientPolicy::Reset]. *)
Definition Reset (horizon : Z) (p : GradientPolicy) : outcome GradientPolicy :=
  trajectory' <- Trajectory_Reset horizon (trajectory p) ;;
  k' <- fill_zero (k p) (horizon * nu (model p)) ;;
  parameters' <- fill_zero (parameters p) (nu (model p) * horizon) ;;
  parameter_update' <- fill_zero (parameter_update p) (nu (model p) * horizon) ;;
  times' <- fill_zero (times p) horizon ;;
  Ok {| model := model p;
        trajectory := trajectory';
        k := k';
        parameters := parameters';
        parameter_update := parameter_update';
        times := times';
        num_parameters := num_parameters p;
        num_spline_points := num_spline_points p;
        representation := representation p |}.

(** [GradientPolicy::Action]; the result is the content of [action[0..nu)].
    The three tests of the source exhaust [PolicyRepresentation], so the
    last branch is the cubic one. *)
Definition Action (p : GradientPolicy) (time : double) : outcome (list double) :=
  bounds <- FindInterval (times p) time (num_spline_points p) ;;
  action <-
    (if (fst bounds =? snd bounds)
        || representation_eqb (representation p) kZeroSpline
     then ZeroInterpolation time (times p) (parameters p)
                            (nu (model p)) (num_spline_points p)
     else if representation_eqb (representation p) kLinearSpline
     then LinearInterpolation time (times p) (parameters p)
                              (nu (model p)) (num_spline_points p)
     else CubicInterpolation time (times p) (parameters p)
                             (nu (model p)) (num_spline_points p)) ;;
  Clamp action (actuator_ctrlrange (model p)) (nu (model p)).

(** [GradientPolicy::CopyFrom]; [this] is the destination. *)
Definition CopyFrom (policy : GradientPolicy) (horizon : Z)
           (this : GradientPolicy) : outcome GradientPolicy :=
  k' <- mju_copy (k this) (k policy) (horizon * nu (model this)) ;;
  parameters' <- mju_copy (parameters this) (parameters policy)
                          (num_parameters policy) ;;
  parameter_update' <- mju_copy (parameter_update this) (parameter_update policy)
                                (num_parameters policy) ;;
  times' <- mju_copy (times this) (times policy) (num_spline_points policy) ;;
  Ok {| model := model this;
        trajectory := trajectory policy;
        k := k';
        parameters := parameters';
        parameter_update := parameter_update';
        times := times';
        num_parameters := num_parameters policy;
        num_spline_points := num_spline_points policy;
        representation := representation policy |}.

(** [GradientPolicy::CopyParametersFrom]. *)
Definition CopyParametersFrom (src_parameters src_times : list double)
           (this : GradientPolicy) : outcome GradientPolicy :=
  parameters' <- mju_copy (parameters this) src_parameters
                          (num_spline_points this * nu (model this)) ;;
  times' <- mju_copy (times this) src_times (num_spline_points this) ;;
  Ok {| model := model this;
        trajectory := trajectory this;
        k := k this;
        parameters := parameters';
        parameter_update := parameter_update this;
        times := times';
        num_parameters := num_parameters this;
        num_spline_points := num_spline_points this;
        representation := representation this |}.

End Policy.

(** ** Vocabulary of the statements *)

(** The control range of actuator [i]. *)
Definition ctrl_lo (m : mjModel) (i : nat) : double :=
  nth (2 * i) (actuator_ctrlrange m) d_zero.
Definition ctrl_hi (m : mjModel) (i : nat) : double :=
  nth (2 * i + 1) (actuator_ctrlrange m) d_zero.

(** [v] with every component clipped to the range of its own actuator. *)
Definition clamped (m : mjModel) (v : list double) : list double :=
  map (fun i => mju_clip (nth i v d_zero) (ctrl_lo m i) (ctrl_hi m i))
      (seq 0 (length v)).

(** Every range of a flat [lo, hi, lo, hi, ...] table has [lo <= hi]. *)
Fixpoint ordered_ranges (bounds : list double) : bool :=
  match bounds with
  | lo :: hi :: rest => dle lo hi && ordered_ranges rest
  | _ => true
  end.

(** The entries of [l] never decrease. *)
Fixpoint nondecreasing (l : list double) : bool :=
  match l with
  | [] => true
  | x :: rest =>
      match rest with
      | [] => true
      | y :: _ => dle x y && nondecreasing rest
      end
  end.

(** [new] is [old] with its first [n] entries set to zero. *)
Definition prefix_zeroed (n : Z) (old new : list double) : Prop :=
  forall i : nat,
    nth_error new i = if Z.of_nat i <? n then Some d_zero else nth_error old i.

(** [new] is [old] with its first [n] entries taken from [src]. *)
Definition prefix_copied (n : Z) (src old new : list double) : Prop :=
  forall i : nat,
    nth_error new i = if Z.of_nat i <? n then nth_error src i else nth_error old i.

(** Component-wise mean of two vectors. *)
Definition midpoint (p0 p1 : list double) : list double :=
  map (fun pq => ((fst pq + snd pq) / (1 + 1))%Qc) (combine p0 p1).

Section PolicyVocabulary.

Context {Trajectory : Type}.

(** The parameter vector of knot [i]. *)
Definition knot (p : GradientPolicy (Trajectory := Trajectory)) (i : Z) : list double :=
  firstn (Z.to_nat (nu (model p)))
         (skipn (Z.to_nat (nu (model p) * i)) (parameters p)).

(** The time of knot [i]. *)
Definition knot_time (p : GradientPolicy (Trajectory := Trajectory)) (i : Z) : double :=
  nth (Z.to_nat i) (times p) d_zero.

(** The times of the active knots. *)
Definition active_times (p : GradientPolicy (Trajectory := Trajectory)) : list double :=
  firstn (Z.to_nat (num_spline_points p)) (times p).

(** What allocation from a model leaves true of a policy: every buffer has
    its full capacity, and the active knot count fits in it. *)
Record Wellformed (kMax : Z) (p : GradientPolicy (Trajectory := Trajectory)) : Prop := {
  wf_nu : 0 <= nu (model p);
  wf_ctrlrange :
    Z.of_nat (length (actuator_ctrlrange (model p))) = 2 * nu (model p);
  wf_k : Z.of_nat (length (k p)) = nu (model p) * kMax;
  wf_parameters : Z.of_nat (length (parameters p)) = nu (model p) * kMax;
  wf_parameter_update :
    Z.of_nat (length (parameter_update p)) = nu (model p) * kMax;
  wf_times : Z.of_nat (length (times p)) = kMax;
  wf_num_parameters : num_parameters p = nu (model p) * kMax;
  wf_num_spline_points : 0 <= num_spline_points p <= kMax
}.

(** [p] with another reference trajectory. *)
Definition with_trajectory (tr : Trajectory)
           (p : GradientPolicy (Trajectory := Trajectory)) : GradientPolicy :=
  {| model := model p;
     trajectory := tr;
     k := k p;
     parameters := parameters p;
     parameter_update := parameter_update p;
     times := times p;
     num_parameters := num_parameters p;
     num_spline_points := num_spline_points p;
     representation := representation p |}.

End PolicyVocabulary.

(** A derivative estimate that reads the active knots only: the first
    [length] times and the first [dim * length] parameters. *)
Definition slope_reads_active
           (slope : list double -> list double -> Z -> Z -> Z -> Z -> double) : Prop :=
  forall (xs xs' ys ys' : list double) (dim length i d : Z),
    firstn (Z.to_nat length) xs = firstn (Z.to_nat length) xs' ->
    firstn (Z.to_nat (dim * length)) ys = firstn (Z.to_nat (dim * length)) ys' ->
    slope xs ys dim length i d = slope xs' ys' dim length i d.

(** ** Sample policies *)

(** The double with integer value [z]. *)
Definition dnum (z : Z) : double := Q2Qc (inject_Z z).

(** A reference trajectory without content, whose reset always returns. *)
Definition Trajectory_Reset_unit (horizon : Z) (tr : unit) : outcome unit := Ok tr.

(** A derivative estimate that is zero everywhere. *)
Definition slope_zero (xs ys : list double) (dim length i d : Z) : double := d_zero.

(** One actuator with control range [[-10, 10]]. *)
Definition one_actuator : mjModel :=
  {| nq := 1; nv := 1; na := 0;
     nu := 1; actuator_ctrlrange := [dnum (-10); dnum 10] |}.

(** A model with so many actuators that [nu * 512] leaves the range of
    [int]. *)
Definition many_actuators : mjModel :=
  {| nq := 1; nv := 1; na := 0;
     nu := 4194304; actuator_ctrlrange := [] |}.

(** A task with three residual terms. *)
Definition three_residuals : Task := {| num_residual := 3 |}.

(** Trajectory operations without content, which always return. *)
Definition Trajectory_Initialize_unit (dim_state dim_action dim_residual horizon : Z)
           (tr : unit) : outcome unit := Ok tr.
Definition Trajectory_Allocate_unit (horizon : Z) (tr : unit) : outcome unit := Ok tr.

(** A model without the two configuration keys: the defaults are used. *)
Definition spline_points_default (default : Z) (m : mjModel) : Z := default.
Definition representation_default (default : PolicyRepresentation) (m : mjModel)
  : PolicyRepresentation := default.

(** Capacity 2; two active knots at times 0 and 1 with parameters 2 and 4. *)
Definition two_knots (r : PolicyRepresentation) : GradientPolicy (Trajectory := unit) :=
  {| model := one_actuator;
     trajectory := tt;
     k := [dnum 7; dnum 8];
     parameters := [dnum 2; dnum 4];
     parameter_update := [dnum 5; dnum 6];
     times := [d_zero; d_one];
     num_parameters := 2;
     num_spline_points := 2;
     representation := r |}.

(** Capacity 4; four active knots at times 0, 1, 2, 3 with parameters
    0, 2, 4, 6. *)
Definition four_knots (r : PolicyRepresentation) : GradientPolicy (Trajectory := unit) :=
  {| model := one_actuator;
     trajectory := tt;
     k := [d_zero; d_zero; d_zero; d_zero];
     parameters := [dnum 0; dnum 2; dnum 4; dnum 6];
     parameter_update := [d_zero; d_zero; d_zero; d_zero];
     times := [dnum 0; dnum 1; dnum 2; dnum 3];
     num_parameters := 4;
     num_spline_points := 4;
     representation := r |}.

(** Capacity 2; two active knots, both at time 0, with parameters 1 and 2. *)
Definition repeated_first_knot : GradientPolicy (Trajectory := unit) :=
  {| model := one_actuator;
     trajectory := tt;
     k := [d_zero; d_zero];
     parameters := [dnum 1; dnum 2];
     parameter_update := [d_zero; d_zero];
     times := [d_zero; d_zero];
     num_parameters := 2;
     num_spline_points := 2;
     representation := kLinearSpline |}.

(** A policy before its first allocation: every buffer is empty. *)
Definition unallocated : GradientPolicy (Trajectory := unit) :=
  {| model := one_actuator;
     trajectory := tt;
     k := [];
     parameters := [];
     parameter_update := [];
     times := [];
     num_parameters := 0;
     num_spline_points := 0;
     representation := kZeroSpline |}.

(** Capacity 1; no active knot, and an old parameter 5 left in the buffer. *)
Definition no_knots : GradientPolicy (Trajectory := unit) :=
  {| model := one_actuator;
     trajectory := tt;
     k := [d_zero];
     parameters := [dnum 5];
     parameter_update := [d_zero];
     times := [d_zero];
     num_parameters := 1;
     num_spline_points := 0;
     representation := kLinearSpline |}.

(** * Properties *)

(** ** Order on doubles *)

Lemma dle_true (x y : double) : dle x y = true <-> (x <= y)%Qc.
Proof. unfold dle, Qcle. apply Qle_bool_iff. Qed.

Lemma dlt_true (x y : double) : dlt x y = true <-> (x < y)%Qc.
Proof.
  unfold dlt. rewrite negb_true_iff. split; intros H.
  - apply Qcnot_le_lt. intro L. apply dle_true in L. unfold dle in L. congruence.
  - destruct (Qle_bool y x) eqn:E; [|reflexivity].
    apply (dle_true y x) in E. exfalso. exact (Qclt_not_le _ _ H E).
Qed.

Lemma dlt_false (x y : double) : dlt x y = false <-> (y <= x)%Qc.
Proof.
  unfold dlt. rewrite negb_false_iff. apply dle_true.
Qed.

Lemma dlt_irrefl (x : double) : dlt x x = false.
Proof. apply dlt_false, Qcle_refl. Qed.

(** ** Outcomes *)

Lemma bind_Ok {A B : Type} (m : outcome A) (f : A -> outcome B) (b : B) :
  bind m f = Ok b -> exists a, m = Ok a /\ f a = Ok b.
Proof. destruct m; simpl; intros H; try discriminate. eauto. Qed.

(** ** Buffers *)

Lemma in_range_true (n : Z) (v : list double) :
  in_range n v = true <-> 0 <= n <= Z.of_nat (length v).
Proof. unfold in_range. rewrite andb_true_iff, !Z.leb_le. tauto. Qed.

Lemma in_range_false (n : Z) (v : list double) :
  in_range n v = false <-> n < 0 \/ Z.of_nat (length v) < n.
Proof.
  unfold in_range. rewrite andb_false_iff, !Z.leb_gt. tauto.
Qed.

Lemma fill_zero_Ok (v : list double) (n : Z) :
  0 <= n <= Z.of_nat (length v) ->
  fill_zero v n = Ok (repeat d_zero (Z.to_nat n) ++ skipn (Z.to_nat n) v).
Proof.
  intros H. unfold fill_zero. apply in_range_true in H. now rewrite H.
Qed.

Lemma fill_zero_past_end (v : list double) (n : Z) :
  Z.of_nat (length v) < n -> fill_zero v n = Undefined.
Proof.
  intros H. unfold fill_zero.
  replace (in_range n v) with false; [reflexivity|].
  symmetry. apply in_range_false. now right.
Qed.

Lemma fill_zero_not_Abort (v : list double) (n : Z) : fill_zero v n <> Abort.
Proof. unfold fill_zero. destruct (in_range n v); discriminate. Qed.

Lemma prefix_zeroed_fill (v : list double) (n : Z) :
  0 <= n <= Z.of_nat (length v) ->
  prefix_zeroed n v (repeat d_zero (Z.to_nat n) ++ skipn (Z.to_nat n) v).
Proof.
  intros H i. rewrite nth_error_app, repeat_length.
  destruct (Z.ltb_spec (Z.of_nat i) n) as [L|L].
  - replace (i <? Z.to_nat n)%nat with true
      by (symmetry; apply Nat.ltb_lt; lia).
    apply nth_error_repeat. lia.
  - replace (i <? Z.to_nat n)%nat with false
      by (symmetry; apply Nat.ltb_ge; lia).
    rewrite nth_error_skipn. f_equal. lia.
Qed.

Lemma mju_copy_Ok (res vec : list double) (n : Z) :
  0 <= n -> n <= Z.of_nat (length res) -> n <= Z.of_nat (length vec) ->
  mju_copy res vec n = Ok (firstn (Z.to_nat n) vec ++ skipn (Z.to_nat n) res).
Proof.
  intros H0 H1 H2. unfold mju_copy.
  assert (in_range n res = true) as -> by (apply in_range_true; lia).
  assert (in_range n vec = true) as -> by (apply in_range_true; lia).
  reflexivity.
Qed.

Lemma prefix_copied_copy (res vec : list double) (n : Z) :
  0 <= n -> n <= Z.of_nat (length res) -> n <= Z.of_nat (length vec) ->
  prefix_copied n vec res (firstn (Z.to_nat n) vec ++ skipn (Z.to_nat n) res).
Proof.
  intros H0 H1 H2 i. rewrite nth_error_app, length_firstn.
  replace (Nat.min (Z.to_nat n) (length vec)) with (Z.to_nat n) by lia.
  destruct (Z.ltb_spec (Z.of_nat i) n) as [L|L].
  - replace (i <? Z.to_nat n)%nat with true
      by (symmetry; apply Nat.ltb_lt; lia).
    rewrite nth_error_firstn.
    replace (i <? Z.to_nat n)%nat with true
      by (symmetry; apply Nat.ltb_lt; lia).
    reflexivity.
  - replace (i <? Z.to_nat n)%nat with false
      by (symmetry; apply Nat.ltb_ge; lia).
    rewrite nth_error_skipn. f_equal. lia.
Qed.

Lemma window_Ok (v : list double) (off len : Z) :
  0 <= off -> 0 <= len -> off + len <= Z.of_nat (length v) ->
  window v off len = Ok (firstn (Z.to_nat len) (skipn (Z.to_nat off) v)).
Proof.
  intros H0 H1 H2. unfold window.
  assert ((0 <=? off) = true) as -> by (apply Z.leb_le; lia).
  assert ((0 <=? len) = true) as -> by (apply Z.leb_le; lia).
  assert ((off + len <=? Z.of_nat (length v)) = true) as -> by (apply Z.leb_le; lia).
  reflexivity.
Qed.

Lemma window_length (v w : list double) (off len : Z) :
  window v off len = Ok w -> Z.of_nat (length w) = len.
Proof.
  unfold window.
  destruct (0 <=? off) eqn:E0; simpl; [|discriminate].
  destruct (0 <=? len) eqn:E1; simpl; [|discriminate].
  destruct (off + len <=? Z.of_nat (length v)) eqn:E2; [|discriminate].
  apply Z.leb_le in E0, E1, E2.
  intros H. injection H as <-.
  rewrite length_firstn, length_skipn. lia.
Qed.

Lemma load_Ok (v : list double) (i : Z) :
  0 <= i < Z.of_nat (length v) ->
  load v i = Ok (nth (Z.to_nat i) v d_zero).
Proof.
  intros H. unfold load.
  assert ((0 <=? i) = true) as -> by (apply Z.leb_le; lia).
  destruct (nth_error v (Z.to_nat i)) eqn:E.
  - now rewrite (nth_error_nth _ _ d_zero E).
  - apply nth_error_None in E. lia.
Qed.

(** ** Interval search *)

Lemma upper_bound_le_length (l : list double) (v : double) :
  (upper_bound l v <= length l)%nat.
Proof.
  induction l as [|x l IH]; simpl; [lia|].
  destruct (dlt v x); lia.
Qed.

Lemma upper_bound_before (l : list double) (v : double) (i : nat) :
  (i < upper_bound l v)%nat -> (nth i l d_zero <= v)%Qc.
Proof.
  revert i. induction l as [|x l IH]; simpl; intros i H; [lia|].
  destruct (dlt v x) eqn:E; [lia|].
  destruct i as [|i].
  - now apply dlt_false.
  - apply IH. lia.
Qed.

Lemma upper_bound_at (l : list double) (v : double) :
  (upper_bound l v < length l)%nat ->
  (v < nth (upper_bound l v) l d_zero)%Qc.
Proof.
  induction l as [|x l IH]; simpl; intros H; [lia|].
  destruct (dlt v x) eqn:E.
  - now apply dlt_true.
  - apply IH. lia.
Qed.

Lemma upper_bound_zero (l : list double) (v : double) :
  (v < nth 0 l d_zero)%Qc -> (0 < length l)%nat -> upper_bound l v = O.
Proof.
  destruct l as [|x l]; simpl; intros H L; [lia|].
  apply dlt_true in H. now rewrite H.
Qed.

Lemma nondecreasing_cons (x y : double) (l : list double) :
  nondecreasing (x :: y :: l) = dle x y && nondecreasing (y :: l).
Proof. reflexivity. Qed.

Lemma nondecreasing_head (l : list double) :
  forall x : double,
    nondecreasing (x :: l) = true ->
    forall m : nat, (m < length l)%nat -> (x <= nth m l d_zero)%Qc.
Proof.
  induction l as [|y l IH]; intros x S m Hm; [simpl in Hm; lia|].
  rewrite nondecreasing_cons in S. apply andb_true_iff in S.
  destruct S as [Sxy S]. apply dle_true in Sxy.
  destruct m as [|m]; [exact Sxy|].
  apply Qcle_trans with (y := y); [exact Sxy|].
  apply IH; [exact S|simpl in Hm; lia].
Qed.

Lemma nondecreasing_tail (x : double) (l : list double) :
  nondecreasing (x :: l) = true -> nondecreasing l = true.
Proof.
  destruct l as [|y l]; [reflexivity|].
  rewrite nondecreasing_cons. intros S. apply andb_true_iff in S. tauto.
Qed.

Lemma nondecreasing_nth (l : list double) :
  nondecreasing l = true ->
  forall i j : nat, (i <= j)%nat -> (j < length l)%nat ->
                    (nth i l d_zero <= nth j l d_zero)%Qc.
Proof.
  induction l as [|x l IH]; intros S i j Hij Hj; [simpl in Hj; lia|].
  destruct j as [|j].
  - replace i with O by lia. apply Qcle_refl.
  - simpl in Hj. destruct i as [|i].
    + apply (nondecreasing_head l x S). lia.
    + apply IH; [exact (nondecreasing_tail x l S)|lia|lia].
Qed.

Lemma upper_bound_all (l : list double) (v : double) :
  (forall i : nat, (i < length l)%nat -> (nth i l d_zero <= v)%Qc) ->
  upper_bound l v = length l.
Proof.
  induction l as [|x l IH]; intros H; [reflexivity|]. simpl.
  assert (E : dlt v x = false) by (apply dlt_false, (H O); simpl; lia).
  rewrite E. f_equal. apply IH. intros i Hi. apply (H (S i)). simpl. lia.
Qed.

Lemma nth_firstn (n i : nat) (l : list double) :
  (i < n)%nat -> nth i (firstn n l) d_zero = nth i l d_zero.
Proof.
  revert i l. induction n as [|n IH]; intros i l H; [lia|].
  destruct l as [|x l]; [now destruct i|].
  destruct i as [|i]; [reflexivity|]. simpl. apply IH. lia.
Qed.

Lemma length_firstn_le (n : nat) (l : list double) :
  (n <= length l)%nat -> length (firstn n l) = n.
Proof. intros H. rewrite length_firstn. lia. Qed.

(** The search on a valid count, with the position [u] of the first knot
    later than the query written out. *)
Lemma FindInterval_unfold (sequence : list double) (value : double) (n : Z) :
  0 <= n <= Z.of_nat (length sequence) ->
  FindInterval sequence value n =
  Ok (let u := Z.of_nat (upper_bound (firstn (Z.to_nat n) sequence) value) in
      if u =? 0 then (0, 0) else (u - 1, Z.min u (n - 1))).
Proof.
  intros H. unfold FindInterval. apply in_range_true in H. rewrite H.
  cbv zeta.
  set (u := Z.of_nat (upper_bound (firstn (Z.to_nat n) sequence) value)).
  destruct (Z.ltb_spec (u - 1) 0) as [L|L];
    destruct (Z.eqb_spec u 0) as [E|E]; try reflexivity; lia.
Qed.

Lemma FindInterval_in_range (sequence : list double) (value : double) (n : Z)
      (b : Z * Z) :
  FindInterval sequence value n = Ok b -> 0 <= n <= Z.of_nat (length sequence).
Proof.
  unfold FindInterval. destruct (in_range n sequence) eqn:E; [|discriminate].
  intros _. now apply in_range_true.
Qed.

(** The indices returned for a non-empty knot set are adjacent or equal and
    lie inside it. *)
Lemma FindInterval_indices (sequence : list double) (value : double) (n i0 i1 : Z) :
  1 <= n ->
  FindInterval sequence value n = Ok (i0, i1) ->
  0 <= i0 /\ i0 <= i1 /\ i1 < n /\ i1 <= i0 + 1.
Proof.
  intros Hn H. pose proof (FindInterval_in_range _ _ _ _ H) as R.
  rewrite (FindInterval_unfold _ _ _ R) in H. cbv zeta in H.
  pose proof (upper_bound_le_length (firstn (Z.to_nat n) sequence) value) as U.
  rewrite length_firstn_le in U by lia.
  destruct (Z.eqb_spec
              (Z.of_nat (upper_bound (firstn (Z.to_nat n) sequence) value)) 0);
    injection H as <- <-; lia.
Qed.

(** With no knot at all the model answers [(0, 0)]. *)
Lemma FindInterval_empty (sequence : list double) (value : double) :
  FindInterval sequence value 0 = Ok (0, 0).
Proof.
  rewrite FindInterval_unfold by lia. reflexivity.
Qed.

(** Distinct indices bracket the query: [times[i0] <= t < times[i1]]. *)
Lemma FindInterval_bracket (sequence : list double) (value : double) (n i0 i1 : Z) :
  FindInterval sequence value n = Ok (i0, i1) ->
  i0 <> i1 ->
  (nth (Z.to_nat i0) sequence d_zero <= value)%Qc /\
  (value < nth (Z.to_nat i1) sequence d_zero)%Qc.
Proof.
  intros H D. pose proof (FindInterval_in_range _ _ _ _ H) as R.
  rewrite (FindInterval_unfold _ _ _ R) in H. cbv zeta in H.
  set (l := firstn (Z.to_nat n) sequence) in *.
  pose proof (upper_bound_le_length l value) as U.
  assert (Ll : length l = Z.to_nat n) by (apply length_firstn_le; lia).
  rewrite Ll in U.
  destruct (Z.eqb_spec (Z.of_nat (upper_bound l value)) 0) as [E|E];
    injection H as <- <-; [congruence|].
  assert (Hu : (upper_bound l value < Z.to_nat n)%nat) by lia.
  rewrite Z.min_l by lia. split.
  - rewrite <- (nth_firstn (Z.to_nat n)) by lia. fold l.
    apply upper_bound_before. lia.
  - rewrite Nat2Z.id. rewrite <- (nth_firstn (Z.to_nat n)) by lia. fold l.
    apply upper_bound_at. lia.
Qed.

(** A query before the first knot saturates at index 0. *)
Lemma FindInterval_below (sequence : list double) (value : double) (n : Z) :
  1 <= n <= Z.of_nat (length sequence) ->
  (value < nth 0 sequence d_zero)%Qc ->
  FindInterval sequence value n = Ok (0, 0).
Proof.
  intros R H. rewrite FindInterval_unfold by lia. cbv zeta.
  rewrite upper_bound_zero; [reflexivity| |].
  - rewrite nth_firstn by lia. exact H.
  - rewrite length_firstn_le by lia. lia.
Qed.

(** A query at or after the last knot saturates at index [n - 1]. *)
Lemma FindInterval_above (sequence : list double) (value : double) (n : Z) :
  1 <= n <= Z.of_nat (length sequence) ->
  nondecreasing (firstn (Z.to_nat n) sequence) = true ->
  (nth (Z.to_nat (n - 1)) sequence d_zero <= value)%Qc ->
  FindInterval sequence value n = Ok (n - 1, n - 1).
Proof.
  intros R S H. rewrite FindInterval_unfold by lia. cbv zeta.
  assert (Ll : length (firstn (Z.to_nat n) sequence) = Z.to_nat n)
    by (apply length_firstn_le; lia).
  rewrite upper_bound_all.
  - rewrite Ll. destruct (Z.eqb_spec (Z.of_nat (Z.to_nat n)) 0); [lia|].
    f_equal. f_equal; lia.
  - intros i Hi. rewrite Ll in Hi.
    apply Qcle_trans with (y := nth (Z.to_nat (n - 1)) sequence d_zero); [|exact H].
    rewrite <- (nth_firstn (Z.to_nat n) (Z.to_nat (n - 1))) by lia.
    apply nondecreasing_nth; [exact S|lia|lia].
Qed.

(** A query exactly at a first knot that is not repeated opens the first
    segment. *)
Lemma FindInterval_first_knot (sequence : list double) (n : Z) :
  2 <= n <= Z.of_nat (length sequence) ->
  (nth 0 sequence d_zero < nth 1 sequence d_zero)%Qc ->
  FindInterval sequence (nth 0 sequence d_zero) n = Ok (0, 1).
Proof.
  intros R H. rewrite FindInterval_unfold by lia. cbv zeta.
  destruct sequence as [|x0 [|x1 rest]]; simpl in R; try lia.
  simpl in H.
  destruct (Z.to_nat n) as [|[|m]] eqn:En; try lia.
  simpl. rewrite dlt_irrefl. apply dlt_true in H. rewrite H.
  simpl. f_equal. f_equal. lia.
Qed.

(** The model meets the contract of spec 4.3 step 1: on non-decreasing active
    times the pair lies inside the knot set, brackets a query inside the
    active time range, and is the nearest boundary index twice for a query
    outside it. *)
Lemma FindInterval_contract (sequence : list double) (value : double) (n : Z) :
  1 <= n <= Z.of_nat (length sequence) ->
  nondecreasing (firstn (Z.to_nat n) sequence) = true ->
  exists i0 i1 : Z,
    FindInterval sequence value n = Ok (i0, i1) /\
    0 <= i0 /\ i0 <= i1 /\ i1 < n /\
    ((value < nth 0 sequence d_zero)%Qc -> i0 = 0 /\ i1 = 0) /\
    ((nth (Z.to_nat (n - 1)) sequence d_zero < value)%Qc ->
     i0 = n - 1 /\ i1 = n - 1) /\
    ((nth 0 sequence d_zero <= value)%Qc ->
     (value <= nth (Z.to_nat (n - 1)) sequence d_zero)%Qc ->
     (nth (Z.to_nat i0) sequence d_zero <= value)%Qc /\
     (value <= nth (Z.to_nat i1) sequence d_zero)%Qc).
Proof.
  intros R S.
  destruct (FindInterval sequence value n) as [[i0 i1]| |] eqn:F;
    try (rewrite FindInterval_unfold in F by lia; discriminate).
  assert (N : 1 <= n) by lia.
  pose proof (FindInterval_indices _ _ _ _ _ N F) as I.
  exists i0, i1. split; [reflexivity|].
  split; [lia|]. split; [lia|]. split; [lia|]. split; [|split].
  - intros B. rewrite FindInterval_below in F by (try lia; exact B).
    injection F as <- <-. split; reflexivity.
  - intros A. rewrite (FindInterval_above sequence value n) in F;
      [|lia|exact S|now apply Qclt_le_weak].
    injection F as <- <-. split; reflexivity.
  - intros L U. destruct (Z.eq_dec i0 i1) as [E|D].
    + destruct (Qcle_lt_or_eq _ _ U) as [U'|U'].
      * (* below the last knot time the pair cannot be degenerate *)
        exfalso. subst i1.
        rewrite FindInterval_unfold in F by lia. cbv zeta in F.
        set (l := firstn (Z.to_nat n) sequence) in *.
        assert (Ll : length l = Z.to_nat n) by (apply length_firstn_le; lia).
        pose proof (upper_bound_le_length l value) as UB.
        destruct (Z.eqb_spec (Z.of_nat (upper_bound l value)) 0) as [E0|E0].
        -- assert (Hu : (upper_bound l value < length l)%nat) by lia.
           pose proof (upper_bound_at l value Hu) as A.
           replace (upper_bound l value) with O in A by lia.
           unfold l in A. rewrite nth_firstn in A by lia.
           exact (Qclt_not_le _ _ A L).
        -- injection F as F0 F1.
           assert (Eu : upper_bound l value = Z.to_nat n) by lia.
           assert (Hb : (Z.to_nat (n - 1) < upper_bound l value)%nat) by lia.
           pose proof (upper_bound_before l value _ Hb) as B.
           unfold l in B. rewrite nth_firstn in B by lia.
           exact (Qclt_not_le _ _ U' B).
      * subst i1. rewrite U'.
        assert (A : (nth (Z.to_nat (n - 1)) sequence d_zero <= value)%Qc)
          by (rewrite U'; apply Qcle_refl).
        rewrite (FindInterval_above sequence value n) in F;
          [|lia|exact S|exact A].
        injection F as <-. rewrite <- U'. split; apply Qcle_refl.
    + destruct (FindInterval_bracket _ _ _ _ _ F D) as [B0 B1].
      split; [exact B0|now apply Qclt_le_weak].
Qed.

(** ** Clamping *)

Lemma mju_clip_bounds (x lo hi : double) :
  (lo <= hi)%Qc -> (lo <= mju_clip x lo hi)%Qc /\ (mju_clip x lo hi <= hi)%Qc.
Proof.
  intros H. unfold mju_clip.
  destruct (dlt x lo) eqn:E1.
  - split; [apply Qcle_refl|exact H].
  - apply dlt_false in E1. destruct (dlt hi x) eqn:E2.
    + split; [exact H|apply Qcle_refl].
    + apply dlt_false in E2. split; assumption.
Qed.


Lemma skipn_two (n : nat) (l : list double) :
  (n + 2 <= length l)%nat ->
  skipn n l = nth n l d_zero :: nth (n + 1) l d_zero :: skipn (n + 2) l.
Proof.
  revert l. induction n as [|n IH]; intros l H.
  - destruct l as [|a [|b l]]; simpl in H; try lia. reflexivity.
  - destruct l as [|a l]; simpl in H; [lia|]. simpl. apply IH. lia.
Qed.

Lemma Clamp_loop_from (bounds : list double) :
  forall (x : list double) (j : nat),
    (2 * (j + length x) <= length bounds)%nat ->
    Clamp_loop x (skipn (2 * j) bounds) (length x) =
    Ok (map (fun i => mju_clip (nth i x d_zero)
                               (nth (2 * (j + i)) bounds d_zero)
                               (nth (2 * (j + i) + 1) bounds d_zero))
            (seq 0 (length x))).
Proof.
  induction x as [|xi x IH]; intros j H; [reflexivity|].
  simpl length in *. cbn [Clamp_loop].
  rewrite skipn_two by lia.
  replace (2 * j + 2)%nat with (2 * S j)%nat by lia.
  rewrite IH by lia. cbn [bind seq map nth].
  rewrite <- seq_shift, map_map.
  replace (j + 0)%nat with j by lia.
  f_equal. f_equal. apply map_ext. intros i.
  replace (S j + i)%nat with (j + S i)%nat by lia. reflexivity.
Qed.

Lemma Clamp_Ok (m : mjModel) (v : list double) (n : Z) :
  Z.of_nat (length v) = n ->
  2 * n <= Z.of_nat (length (actuator_ctrlrange m)) ->
  Clamp v (actuator_ctrlrange m) n = Ok (clamped m v).
Proof.
  intros Hv Hb. unfold Clamp.
  replace (Z.to_nat n) with (length v) by lia.
  pose proof (Clamp_loop_from (actuator_ctrlrange m) v 0) as C.
  simpl skipn in C. rewrite C by lia. reflexivity.
Qed.

Lemma clamped_length (m : mjModel) (v : list double) :
  length (clamped m v) = length v.
Proof. unfold clamped. now rewrite length_map, length_seq. Qed.

Lemma clamped_nth_error (m : mjModel) (v : list double) (i : nat) (x : double) :
  nth_error (clamped m v) i = Some x ->
  x = mju_clip (nth i v d_zero) (ctrl_lo m i) (ctrl_hi m i) /\ (i < length v)%nat.
Proof.
  intros H.
  assert (L : (i < length v)%nat).
  { rewrite <- (clamped_length m). apply nth_error_Some. congruence. }
  split; [|exact L].
  unfold clamped in H.
  rewrite nth_error_map, nth_error_seq in H.
  apply Nat.ltb_lt in L. rewrite L in H. simpl in H. congruence.
Qed.

Lemma ordered_ranges_nth (bounds : list double) :
  ordered_ranges bounds = true ->
  forall i : nat, (2 * i + 1 < length bounds)%nat ->
                  (nth (2 * i) bounds d_zero <= nth (2 * i + 1) bounds d_zero)%Qc.
Proof.
  intros H i. revert bounds H.
  induction i as [|i IH]; intros bounds H L.
  - destruct bounds as [|lo [|hi rest]]; simpl in L; try lia.
    simpl in H. apply andb_true_iff in H. apply dle_true. tauto.
  - destruct bounds as [|lo [|hi rest]]; simpl in L; try lia.
    simpl in H. apply andb_true_iff in H. destruct H as [_ H].
    replace (2 * S i)%nat with (S (S (2 * i))) by lia.
    replace (S (S (2 * i)) + 1)%nat with (S (S (2 * i + 1))) by lia.
    cbn [nth]. apply IH; [exact H|lia].
Qed.


Section Properties.

Context {Trajectory : Type}.
Variable Trajectory_Reset : Z -> Trajectory -> outcome Trajectory.
Variable slope : list double -> list double -> Z -> Z -> Z -> Z -> double.
Variable kMax : Z.

Implicit Types p this policy : GradientPolicy (Trajectory := Trajectory).

(** ** Reading knots *)

Lemma knot_window p (i : Z) :
  Wellformed kMax p -> 0 <= i < kMax ->
  window (parameters p) (nu (model p) * i) (nu (model p)) = Ok (knot p i).
Proof.
  intros W Hi. destruct W. apply window_Ok; nia.
Qed.

Lemma knot_length p (i : Z) :
  Wellformed kMax p -> 0 <= i < kMax ->
  Z.of_nat (length (knot p i)) = nu (model p).
Proof.
  intros W Hi. apply (window_length (parameters p) _ (nu (model p) * i)).
  now apply knot_window.
Qed.

Lemma knot_time_load p (i : Z) :
  Wellformed kMax p -> 0 <= i < kMax ->
  load (times p) i = Ok (knot_time p i).
Proof.
  intros W Hi. destruct W. apply load_Ok. lia.
Qed.

(** The index pair of a well-formed policy stays inside the buffers. *)
Lemma FindInterval_policy p (t : double) :
  Wellformed kMax p -> 1 <= kMax ->
  exists i0 i1 : Z,
    FindInterval (times p) t (num_spline_points p) = Ok (i0, i1) /\
    0 <= i0 < kMax /\ 0 <= i1 < kMax /\
    (1 <= num_spline_points p ->
     i0 <= i1 /\ i1 < num_spline_points p /\ i1 <= i0 + 1).
Proof.
  intros W K. pose proof (wf_num_spline_points _ _ W) as N.
  pose proof (wf_times _ _ W) as T.
  destruct (Z.eq_dec (num_spline_points p) 0) as [E|E].
  - exists 0, 0. rewrite E, FindInterval_empty. repeat split; lia.
  - destruct (FindInterval (times p) t (num_spline_points p)) as [[i0 i1]| |] eqn:F.
    + assert (N1 : 1 <= num_spline_points p) by lia.
      pose proof (FindInterval_indices _ _ _ _ _ N1 F) as I.
      exists i0, i1. repeat split; lia.
    + rewrite FindInterval_unfold in F by lia. discriminate.
    + rewrite FindInterval_unfold in F by lia. discriminate.
Qed.

(** ** The three branches of [Action] *)

Lemma Action_hold_branch p (t : double) (i0 i1 : Z) :
  FindInterval (times p) t (num_spline_points p) = Ok (i0, i1) ->
  i0 = i1 \/ representation p = kZeroSpline ->
  Action slope p t =
  (action <- window (parameters p) (nu (model p) * i0) (nu (model p)) ;;
   Clamp action (actuator_ctrlrange (model p)) (nu (model p))).
Proof.
  intros F C. unfold Action. rewrite F. cbn [bind fst snd].
  assert (((i0 =? i1) || representation_eqb (representation p) kZeroSpline)
          = true) as ->.
  { destruct C as [->| ->]; [now rewrite Z.eqb_refl|apply orb_true_r]. }
  unfold ZeroInterpolation. rewrite F. reflexivity.
Qed.

Lemma Action_linear_branch p (t : double) (i0 i1 : Z) :
  FindInterval (times p) t (num_spline_points p) = Ok (i0, i1) ->
  i0 <> i1 -> representation p = kLinearSpline ->
  Action slope p t =
  (action <- linear_segment t (times p) (parameters p) (nu (model p)) i0 i1 ;;
   Clamp action (actuator_ctrlrange (model p)) (nu (model p))).
Proof.
  intros F D R. unfold Action. rewrite F, R. cbn [bind fst snd].
  apply Z.eqb_neq in D. rewrite D. cbn [orb representation_eqb].
  unfold LinearInterpolation. rewrite F. cbn [bind fst snd]. now rewrite D.
Qed.

Lemma Action_cubic_branch p (t : double) (i0 i1 : Z) :
  FindInterval (times p) t (num_spline_points p) = Ok (i0, i1) ->
  i0 <> i1 -> representation p = kCubicSpline ->
  Action slope p t =
  (action <- (if (i0 =? 0) || (i1 =? num_spline_points p - 1)
              then linear_segment t (times p) (parameters p) (nu (model p)) i0 i1
              else cubic_segment slope t (times p) (parameters p) (nu (model p))
                                 (num_spline_points p) i0 i1) ;;
   Clamp action (actuator_ctrlrange (model p)) (nu (model p))).
Proof.
  intros F D R. unfold Action. rewrite F, R. cbn [bind fst snd].
  apply Z.eqb_neq in D. rewrite D. cbn [orb representation_eqb].
  unfold CubicInterpolation. rewrite F. cbn [bind fst snd]. now rewrite D.
Qed.

Lemma linear_segment_Ok p (t : double) (i0 i1 : Z) :
  Wellformed kMax p -> 0 <= i0 < kMax -> 0 <= i1 < kMax ->
  linear_segment t (times p) (parameters p) (nu (model p)) i0 i1 =
  Ok (map (fun pq =>
             lerp ((t - knot_time p i0) / (knot_time p i1 - knot_time p i0))%Qc
                  (fst pq) (snd pq))
          (combine (knot p i0) (knot p i1))).
Proof.
  intros W H0 H1. unfold linear_segment.
  rewrite !knot_time_load, !knot_window by assumption. reflexivity.
Qed.

Lemma cubic_segment_Ok p (t : double) (i0 i1 : Z) :
  Wellformed kMax p -> 0 <= i0 < kMax -> 0 <= i1 < kMax ->
  exists v : list double,
    cubic_segment slope t (times p) (parameters p) (nu (model p))
                  (num_spline_points p) i0 i1 = Ok v /\
    Z.of_nat (length v) = nu (model p).
Proof.
  intros W H0 H1. unfold cubic_segment.
  rewrite !knot_time_load, !knot_window by assumption. cbn [bind].
  eexists. split; [reflexivity|].
  rewrite length_map, length_seq. pose proof (wf_nu _ _ W). lia.
Qed.

Lemma Clamp_policy p (v : list double) :
  Wellformed kMax p -> Z.of_nat (length v) = nu (model p) ->
  Clamp v (actuator_ctrlrange (model p)) (nu (model p)) = Ok (clamped (model p) v).
Proof.
  intros W L. apply Clamp_Ok; [exact L|]. rewrite (wf_ctrlrange _ _ W). lia.
Qed.

Lemma Action_hold_Ok p (t : double) (i0 i1 : Z) :
  Wellformed kMax p -> 0 <= i0 < kMax ->
  FindInterval (times p) t (num_spline_points p) = Ok (i0, i1) ->
  i0 = i1 \/ representation p = kZeroSpline ->
  Action slope p t = Ok (clamped (model p) (knot p i0)).
Proof.
  intros W H0 F C. rewrite (Action_hold_branch p t i0 i1 F C).
  rewrite knot_window by assumption. cbn [bind].
  apply Clamp_policy; [exact W|now apply knot_length].
Qed.

(** Whatever branch is taken, [Action] returns the clamped image of a
    vector with one component per actuator. *)
Lemma Action_total p (t : double) :
  Wellformed kMax p -> 1 <= kMax ->
  exists v : list double,
    Z.of_nat (length v) = nu (model p) /\
    Action slope p t = Ok (clamped (model p) v).
Proof.
  intros W K.
  destruct (FindInterval_policy p t W K) as (i0 & i1 & F & H0 & H1 & _).
  assert (Lin : exists v : list double,
             linear_segment t (times p) (parameters p) (nu (model p)) i0 i1 = Ok v /\
             Z.of_nat (length v) = nu (model p)).
  { rewrite linear_segment_Ok by assumption. eexists. split; [reflexivity|].
    rewrite length_map, length_combine.
    pose proof (knot_length p i0 W H0). pose proof (knot_length p i1 W H1). lia. }
  destruct (Z.eq_dec i0 i1) as [E|D].
  { exists (knot p i0). split; [now apply knot_length|].
    apply (Action_hold_Ok p t i0 i1); auto. }
  destruct (representation p) eqn:R.
  - exists (knot p i0). split; [now apply knot_length|].
    apply (Action_hold_Ok p t i0 i1); auto.
  - destruct Lin as (v & Ev & Lv). exists v. split; [exact Lv|].
    rewrite (Action_linear_branch p t i0 i1 F D R), Ev. cbn [bind].
    now apply Clamp_policy.
  - rewrite (Action_cubic_branch p t i0 i1 F D R).
    destruct ((i0 =? 0) || (i1 =? num_spline_points p - 1)).
    + destruct Lin as (v & Ev & Lv). exists v. split; [exact Lv|].
      rewrite Ev. cbn [bind]. now apply Clamp_policy.
    + destruct (cubic_segment_Ok p t i0 i1 W H0 H1) as (v & Ev & Lv).
      exists v. split; [exact Lv|].
      rewrite Ev. cbn [bind]. now apply Clamp_policy.
Qed.

(** ** Hold semantics *)

(** C1.  For a policy with a non-empty active knot set and any query time
    [t], the interval search returns a pair [(i0, i1)] inside the knot set,
    and whenever [i0 = i1] or the representation is [kZeroSpline], [Action]
    returns [parameters[i0]] itself, clamped per dimension, whatever the
    configured representation.  [i0 = i1] holds in particular with a single
    knot and for a query outside the active time range. *)
Theorem Action_hold_semantics p (t : double) :
  Wellformed kMax p ->
  1 <= num_spline_points p ->
  exists i0 i1 : Z,
    FindInterval (times p) t (num_spline_points p) = Ok (i0, i1) /\
    0 <= i0 < num_spline_points p /\
    (i0 = i1 \/ representation p = kZeroSpline ->
     Action slope p t = Ok (clamped (model p) (knot p i0))) /\
    (num_spline_points p = 1 -> i0 = i1) /\
    ((t < knot_time p 0)%Qc -> i0 = i1) /\
    (nondecreasing (active_times p) = true ->
     (knot_time p (num_spline_points p - 1) < t)%Qc -> i0 = i1).
Proof.
  intros W N. pose proof (wf_num_spline_points _ _ W) as NK.
  pose proof (wf_times _ _ W) as T.
  assert (K : 1 <= kMax) by lia.
  destruct (FindInterval_policy p t W K) as (i0 & i1 & F & H0 & H1 & I).
  specialize (I N). exists i0, i1.
  split; [exact F|]. split; [lia|]. split; [|split; [|split]].
  - intros C. now apply (Action_hold_Ok p t i0 i1).
  - intros E. lia.
  - intros B. unfold knot_time in B.
    rewrite (FindInterval_below (times p) t (num_spline_points p)) in F
      by (try lia; exact B).
    injection F as <- <-. reflexivity.
  - intros S A. unfold knot_time in A.
    rewrite (FindInterval_above (times p) t (num_spline_points p)) in F.
    + injection F as <- <-. reflexivity.
    + lia.
    + exact S.
    + now apply Qclt_le_weak.
Qed.

(** ** Clamping *)

(** C2.  For a policy that satisfies its invariants (with at least one knot
    of capacity) over a model whose control ranges have [lo <= hi], and for
    every query time, [Action] returns a vector with one component per
    actuator, each one the clip of the interpolated component to the range
    of its own actuator, hence [lo_i <= action_i <= hi_i] in every
    dimension, whichever interpolation produced the value. *)
Theorem Action_within_ctrlrange p (t : double) :
  Wellformed kMax p ->
  1 <= kMax ->
  ordered_ranges (actuator_ctrlrange (model p)) = true ->
  exists v : list double,
    Z.of_nat (length v) = nu (model p) /\
    Action slope p t = Ok (clamped (model p) v) /\
    Z.of_nat (length (clamped (model p) v)) = nu (model p) /\
    forall (i : nat) (x : double),
      nth_error (clamped (model p) v) i = Some x ->
      x = mju_clip (nth i v d_zero) (ctrl_lo (model p) i) (ctrl_hi (model p) i) /\
      (ctrl_lo (model p) i <= x)%Qc /\ (x <= ctrl_hi (model p) i)%Qc.
Proof.
  intros W K O.
  destruct (Action_total p t W K) as (v & L & A).
  exists v. split; [exact L|]. split; [exact A|].
  split; [now rewrite clamped_length|].
  intros i x Hx. destruct (clamped_nth_error _ _ _ _ Hx) as [-> Li].
  split; [reflexivity|].
  apply mju_clip_bounds. unfold ctrl_lo, ctrl_hi.
  apply ordered_ranges_nth; [exact O|].
  pose proof (wf_ctrlrange _ _ W). lia.
Qed.

(** ** Saturation at the ends of the knot set *)

Lemma position_at_start (x h : Qc) : ((x - x) / h)%Qc = 0%Qc.
Proof. unfold Qcdiv. ring. Qed.

Lemma lerp_at_zero (a b : Qc) : lerp 0%Qc a b = a.
Proof. unfold lerp, double. ring. Qed.

Lemma lerp_vector_at_zero (a b : list double) :
  (length a <= length b)%nat ->
  map (fun pq => lerp 0%Qc (fst pq) (snd pq)) (combine a b) = a.
Proof.
  revert b. induction a as [|x a IH]; intros b H; [reflexivity|].
  destruct b as [|y b]; simpl in H; [lia|].
  simpl. rewrite lerp_at_zero. f_equal. apply IH. lia.
Qed.

(** At the time of a first knot that is not repeated, every representation
    returns the first knot. *)
Lemma Action_at_first_knot p :
  Wellformed kMax p ->
  1 <= num_spline_points p ->
  num_spline_points p = 1 \/ (knot_time p 0 < knot_time p 1)%Qc ->
  Action slope p (knot_time p 0) = Ok (clamped (model p) (knot p 0)).
Proof.
  intros W N C. pose proof (wf_num_spline_points _ _ W) as NK.
  pose proof (wf_times _ _ W) as T.
  destruct (Z.eq_dec (num_spline_points p) 1) as [E|E].
  - destruct (FindInterval_policy p (knot_time p 0) W ltac:(lia))
      as (i0 & i1 & F & H0 & H1 & I).
    specialize (I N).
    assert (i0 = 0) as -> by lia. assert (i1 = 0) as -> by lia.
    apply (Action_hold_Ok p _ 0 0); auto; lia.
  - destruct C as [C|C]; [contradiction|].
    assert (F : FindInterval (times p) (knot_time p 0) (num_spline_points p)
                = Ok (0, 1)).
    { apply FindInterval_first_knot; [lia|exact C]. }
    assert (Lin : (action <- linear_segment (knot_time p 0) (times p) (parameters p)
                                            (nu (model p)) 0 1 ;;
                   Clamp action (actuator_ctrlrange (model p)) (nu (model p)))
                  = Ok (clamped (model p) (knot p 0))).
    { rewrite linear_segment_Ok by (try assumption; lia).
      rewrite position_at_start, lerp_vector_at_zero.
      - cbn [bind]. apply Clamp_policy; [exact W|]. apply knot_length; [exact W|lia].
      - pose proof (knot_length p 0 W ltac:(lia)).
        pose proof (knot_length p 1 W ltac:(lia)). lia. }
    destruct (representation p) eqn:R.
    + apply (Action_hold_Ok p _ 0 1); auto; lia.
    + rewrite (Action_linear_branch p _ 0 1 F ltac:(lia) R). exact Lin.
    + rewrite (Action_cubic_branch p _ 0 1 F ltac:(lia) R).
      cbn [Z.eqb orb]. exact Lin.
Qed.

Lemma Action_at_or_after_last_knot p (t : double) :
  Wellformed kMax p ->
  1 <= num_spline_points p ->
  nondecreasing (active_times p) = true ->
  (knot_time p (num_spline_points p - 1) <= t)%Qc ->
  Action slope p t = Ok (clamped (model p) (knot p (num_spline_points p - 1))).
Proof.
  intros W N S A. pose proof (wf_num_spline_points _ _ W) as NK.
  pose proof (wf_times _ _ W) as T.
  apply (Action_hold_Ok p t _ (num_spline_points p - 1)); auto; [lia|].
  apply FindInterval_above; [lia|exact S|exact A].
Qed.

(** C3 (amended).  For a policy with at least one active knot and
    non-decreasing active times, in every representation: [Action] at any
    [t] after the last knot time returns the same vector as at the last knot
    time, namely the clamped last knot; and provided the first knot time is
    not repeated (a single knot, or [times[0] < times[1]]), [Action] at any
    [t] before the first knot time returns the same vector as at the first
    knot time, namely the clamped first knot. *)
Theorem Action_saturates p :
  Wellformed kMax p ->
  1 <= num_spline_points p ->
  nondecreasing (active_times p) = true ->
  (num_spline_points p = 1 \/ (knot_time p 0 < knot_time p 1)%Qc ->
   forall t : double,
     (t < knot_time p 0)%Qc ->
     Action slope p t = Ok (clamped (model p) (knot p 0)) /\
     Action slope p (knot_time p 0) = Ok (clamped (model p) (knot p 0))) /\
  (forall t : double,
      (knot_time p (num_spline_points p - 1) < t)%Qc ->
      Action slope p t
      = Ok (clamped (model p) (knot p (num_spline_points p - 1))) /\
      Action slope p (knot_time p (num_spline_points p - 1))
      = Ok (clamped (model p) (knot p (num_spline_points p - 1)))).
Proof.
  intros W N S. pose proof (wf_num_spline_points _ _ W) as NK.
  pose proof (wf_times _ _ W) as T. split.
  - intros C t B. split; [|now apply Action_at_first_knot].
    apply (Action_hold_Ok p t 0 0); auto; [lia|].
    apply FindInterval_below; [lia|exact B].
  - intros t A. split.
    + apply Action_at_or_after_last_knot; auto. now apply Qclt_le_weak.
    + apply Action_at_or_after_last_knot; auto. apply Qcle_refl.
Qed.

(** ** Reset *)

Lemma zeroed_length (v : list double) (n : Z) :
  0 <= n <= Z.of_nat (length v) ->
  length (repeat d_zero (Z.to_nat n) ++ skipn (Z.to_nat n) v) = length v.
Proof.
  intros H. rewrite length_app, repeat_length, length_skipn. lia.
Qed.



(** The policy that [Reset] leaves behind. *)
Lemma Reset_Ok p (h : Z) (tr : Trajectory) :
  Wellformed kMax p ->
  0 <= h <= kMax ->
  Trajectory_Reset h (trajectory p) = Ok tr ->
  Reset Trajectory_Reset h p =
  Ok {| model := model p;
        trajectory := tr;
        k := repeat d_zero (Z.to_nat (h * nu (model p)))
             ++ skipn (Z.to_nat (h * nu (model p))) (k p);
        parameters := repeat d_zero (Z.to_nat (nu (model p) * h))
                      ++ skipn (Z.to_nat (nu (model p) * h)) (parameters p);
        parameter_update := repeat d_zero (Z.to_nat (nu (model p) * h))
                            ++ skipn (Z.to_nat (nu (model p) * h))
                                     (parameter_update p);
        times := repeat d_zero (Z.to_nat h) ++ skipn (Z.to_nat h) (times p);
        num_parameters := num_parameters p;
        num_spline_points := num_spline_points p;
        representation := representation p |}.
Proof.
  intros W H T. destruct W. unfold Reset. rewrite T. cbn [bind].
  rewrite !fill_zero_Ok by nia. reflexivity.
Qed.

Lemma Reset_Wellformed p p' (h : Z) :
  Wellformed kMax p ->
  0 <= h <= kMax ->
  Reset Trajectory_Reset h p = Ok p' ->
  Wellformed kMax p'.
Proof.
  intros W H R.
  destruct (Trajectory_Reset h (trajectory p)) as [tr| |] eqn:T;
    try (unfold Reset in R; rewrite T in R; discriminate).
  rewrite (Reset_Ok p h tr W H T) in R. injection R as <-.
  destruct W. constructor; cbn; try assumption;
    rewrite zeroed_length; try assumption; nia.
Qed.

(** C5.  For a horizon [0 <= h <= maxHorizon] (and a trajectory whose own
    reset returns), [Reset h] returns, and afterwards the improvement
    buffer and [parameters] are their old selves with exactly the first
    [h * nu] entries set to zero, and [times] is its old self with exactly
    the first [h] entries set to zero: every entry at or beyond the prefix
    keeps its value. *)
Theorem Reset_zeroes_prefixes p (h : Z) (tr : Trajectory) :
  Wellformed kMax p ->
  0 <= h <= kMax ->
  Trajectory_Reset h (trajectory p) = Ok tr ->
  exists p',
    Reset Trajectory_Reset h p = Ok p' /\
    prefix_zeroed (h * nu (model p)) (k p) (k p') /\
    prefix_zeroed (h * nu (model p)) (parameters p) (parameters p') /\
    prefix_zeroed h (times p) (times p').
Proof.
  intros W H T. eexists. split; [apply (Reset_Ok p h tr W H T)|].
  destruct W. cbn. replace (nu (model p) * h) with (h * nu (model p)) by lia.
  repeat split; apply prefix_zeroed_fill; nia.
Qed.

(** C10.  For a horizon [0 <= h <= maxHorizon] (and a trajectory whose own
    reset returns), [Reset h] also sets the first [h * nu] entries of
    [parameter_update] to zero and leaves its entries from index [h * nu]
    on unchanged. *)
Theorem Reset_zeroes_parameter_update p (h : Z) (tr : Trajectory) :
  Wellformed kMax p ->
  0 <= h <= kMax ->
  Trajectory_Reset h (trajectory p) = Ok tr ->
  exists p',
    Reset Trajectory_Reset h p = Ok p' /\
    prefix_zeroed (h * nu (model p)) (parameter_update p) (parameter_update p').
Proof.
  intros W H T. eexists. split; [apply (Reset_Ok p h tr W H T)|].
  destruct W. cbn. replace (nu (model p) * h) with (h * nu (model p)) by lia.
  apply prefix_zeroed_fill; nia.
Qed.

(** C6 (amended).  [Reset] has no capacity check of its own.  For a horizon
    beyond [maxHorizon] it stops with an error exactly when the reference
    trajectory's reset does; whenever that reset returns, [Reset] goes on
    to a fill whose end lies past the end of a buffer, which is undefined
    behaviour and not a reported failure. *)
Theorem Reset_beyond_capacity p (h : Z) :
  Wellformed kMax p ->
  kMax < h ->
  (Reset Trajectory_Reset h p = Abort <->
   Trajectory_Reset h (trajectory p) = Abort) /\
  (forall tr : Trajectory,
      Trajectory_Reset h (trajectory p) = Ok tr ->
      Reset Trajectory_Reset h p = Undefined).
Proof.
  intros W H.
  assert (U : forall tr : Trajectory,
             Trajectory_Reset h (trajectory p) = Ok tr ->
             Reset Trajectory_Reset h p = Undefined).
  { intros tr T. destruct W. unfold Reset. rewrite T. cbn [bind].
    destruct (Z.eq_dec (nu (model p)) 0) as [E|E].
    - rewrite E, Z.mul_0_r, Z.mul_0_l.
      rewrite !fill_zero_Ok by lia. cbn [bind].
      rewrite (fill_zero_past_end (times p) h) by lia. reflexivity.
    - rewrite (fill_zero_past_end (k p)) by nia. reflexivity. }
  split; [|exact U].
  destruct (Trajectory_Reset h (trajectory p)) as [tr| |] eqn:T.
  - rewrite (U tr eq_refl). split; discriminate.
  - unfold Reset. rewrite T. cbn [bind]. tauto.
  - unfold Reset. rewrite T. cbn [bind]. split; discriminate.
Qed.

(** ** Evaluation after a reset *)





(** ** Linear interpolation between two knots *)

Lemma lerp_at_half (a b : Qc) : lerp d_half a b = ((a + b) / (1 + 1))%Qc.
Proof.
  unfold lerp, d_half, double. field. intros E. discriminate E.
Qed.

Lemma position_half : ((d_half - d_zero) / (d_one - d_zero))%Qc = d_half.
Proof. apply Qc_is_canon. reflexivity. Qed.

Lemma position_zero : ((d_zero - d_zero) / (d_one - d_zero))%Qc = 0%Qc.
Proof. apply Qc_is_canon. reflexivity. Qed.

Lemma two_knots_windows (P0 P1 ps : list double) (n : Z) :
  Z.of_nat (length P0) = n ->
  Z.of_nat (length P1) = n ->
  window (P0 ++ P1 ++ ps) (n * 0) n = Ok P0 /\
  window (P0 ++ P1 ++ ps) (n * 1) n = Ok P1.
Proof.
  intros L0 L1. split.
  - rewrite window_Ok by (rewrite ?length_app; lia).
    rewrite Z.mul_0_r. cbn [Z.to_nat skipn].
    replace (Z.to_nat n) with (length P0) by lia.
    rewrite firstn_app, firstn_all, Nat.sub_diag. cbn [firstn].
    now rewrite app_nil_r.
  - rewrite window_Ok by (rewrite ?length_app; lia).
    rewrite Z.mul_1_r. replace (Z.to_nat n) with (length P0) at 2 by lia.
    rewrite skipn_app, skipn_all, Nat.sub_diag. cbn [skipn app].
    replace (Z.to_nat n) with (length P1) by lia.
    rewrite firstn_app, firstn_all, Nat.sub_diag. cbn [firstn].
    now rewrite app_nil_r.
Qed.

Lemma two_knots_search (ts : list double) :
  FindInterval (d_zero :: d_one :: ts) d_half 2 = Ok (0, 1) /\
  FindInterval (d_zero :: d_one :: ts) d_zero 2 = Ok (0, 1) /\
  FindInterval (d_zero :: d_one :: ts) d_one 2 = Ok (1, 1).
Proof.
  assert (R : 0 <= 2 <= Z.of_nat (length (d_zero :: d_one :: ts)))
    by (cbn [length]; lia).
  rewrite !(FindInterval_unfold _ _ 2 R).
  change (firstn (Z.to_nat 2) (d_zero :: d_one :: ts)) with [d_zero; d_one].
  repeat split.
Qed.

(** C7.  A policy in linear representation with exactly two active knots,
    at times 0 and 1 with parameter vectors [P0] and [P1]: [Action] at
    [t = 1/2] returns the component-wise mean of [P0] and [P1] clamped, at
    [t = 0] it returns [P0] clamped and at [t = 1] it returns [P1]
    clamped. *)
Theorem Action_linear_two_knots p (P0 P1 ps ts : list double) :
  representation p = kLinearSpline ->
  num_spline_points p = 2 ->
  times p = d_zero :: d_one :: ts ->
  parameters p = P0 ++ P1 ++ ps ->
  Z.of_nat (length P0) = nu (model p) ->
  Z.of_nat (length P1) = nu (model p) ->
  2 * nu (model p) <= Z.of_nat (length (actuator_ctrlrange (model p))) ->
  Action slope p d_half = Ok (clamped (model p) (midpoint P0 P1)) /\
  Action slope p d_zero = Ok (clamped (model p) P0) /\
  Action slope p d_one = Ok (clamped (model p) P1).
Proof.
  intros R N T P L0 L1 B.
  destruct (two_knots_search ts) as (Fh & F0 & F1).
  destruct (two_knots_windows P0 P1 ps (nu (model p)) L0 L1) as (W0 & W1).
  rewrite <- T, <- N in Fh, F0, F1. rewrite <- P in W0, W1.
  assert (Seg : forall t : double,
             linear_segment t (times p) (parameters p) (nu (model p)) 0 1
             = Ok (map (fun pq => lerp ((t - d_zero) / (d_one - d_zero))%Qc
                                       (fst pq) (snd pq))
                       (combine P0 P1))).
  { intros t. unfold linear_segment. rewrite W0, W1, T. reflexivity. }
  split; [|split].
  - rewrite (Action_linear_branch p d_half 0 1 Fh ltac:(lia) R), Seg.
    cbn [bind]. rewrite position_half.
    rewrite (map_ext _ (fun pq => ((fst pq + snd pq) / (1 + 1))%Qc))
      by (intros pq; apply lerp_at_half).
    apply Clamp_Ok; [|exact B].
    unfold midpoint. rewrite length_map, length_combine. lia.
  - rewrite (Action_linear_branch p d_zero 0 1 F0 ltac:(lia) R), Seg.
    cbn [bind]. rewrite position_zero, lerp_vector_at_zero by lia.
    now apply Clamp_Ok.
  - rewrite (Action_hold_branch p d_one 1 1 F1 (or_introl eq_refl)), W1.
    cbn [bind]. now apply Clamp_Ok.
Qed.

(** ** Copies *)

(** C8.  For a destination policy within its capacity and supplied
    sequences holding at least [numSplinePoints * nu] parameters and
    [numSplinePoints] times (counts from the destination's own
    [num_spline_points]), [CopyParametersFrom] returns, overwrites exactly
    [parameters[0 .. numSplinePoints * nu)] and [times[0 .. numSplinePoints)]
    from those sequences, and leaves every later entry of the two buffers,
    [representation], [num_parameters], [num_spline_points], the
    improvement buffer, [parameter_update], the reference trajectory and
    the model unchanged. *)
Theorem CopyParametersFrom_frame this (src_parameters src_times : list double) :
  Wellformed kMax this ->
  num_spline_points this * nu (model this) <= Z.of_nat (length src_parameters) ->
  num_spline_points this <= Z.of_nat (length src_times) ->
  exists this',
    CopyParametersFrom src_parameters src_times this = Ok this' /\
    prefix_copied (num_spline_points this * nu (model this))
                  src_parameters (parameters this) (parameters this') /\
    prefix_copied (num_spline_points this)
                  src_times (times this) (times this') /\
    representation this' = representation this /\
    num_parameters this' = num_parameters this /\
    num_spline_points this' = num_spline_points this /\
    k this' = k this /\
    parameter_update this' = parameter_update this /\
    trajectory this' = trajectory this /\
    model this' = model this.
Proof.
  intros W SP ST. destruct W. unfold CopyParametersFrom.
  rewrite (mju_copy_Ok (parameters this)) by nia.
  rewrite (mju_copy_Ok (times this)) by lia.
  cbn [bind]. eexists. split; [reflexivity|]. cbn.
  split; [apply prefix_copied_copy; nia|].
  split; [apply prefix_copied_copy; lia|].
  repeat split.
Qed.

(** C9.  For a source and a destination allocated from the same model
    (equal [nu] and capacity) and a horizon [0 <= h <= maxHorizon],
    [CopyFrom] returns and afterwards: the destination's reference
    trajectory is the source's; its first [h * nu] improvement entries, its
    first [num_parameters] entries of [parameters] and of
    [parameter_update] (the source's [num_parameters]) and its first
    [num_spline_points] times (the source's [num_spline_points]) are the
    source's; and its [num_spline_points], [num_parameters] and
    [representation] are the source's. *)
Theorem CopyFrom_copies policy this (h : Z) :
  Wellformed kMax policy ->
  Wellformed kMax this ->
  nu (model policy) = nu (model this) ->
  0 <= h <= kMax ->
  exists this',
    CopyFrom policy h this = Ok this' /\
    trajectory this' = trajectory policy /\
    prefix_copied (h * nu (model this)) (k policy) (k this) (k this') /\
    prefix_copied (num_parameters policy)
                  (parameters policy) (parameters this) (parameters this') /\
    prefix_copied (num_parameters policy)
                  (parameter_update policy) (parameter_update this)
                  (parameter_update this') /\
    prefix_copied (num_spline_points policy)
                  (times policy) (times this) (times this') /\
    num_spline_points this' = num_spline_points policy /\
    num_parameters this' = num_parameters policy /\
    representation this' = representation policy.
Proof.
  intros Ws Wd E H. destruct Ws, Wd. unfold CopyFrom.
  rewrite (mju_copy_Ok (k this)) by nia.
  rewrite (mju_copy_Ok (parameters this)) by nia.
  rewrite (mju_copy_Ok (parameter_update this)) by nia.
  rewrite (mju_copy_Ok (times this)) by lia.
  cbn [bind]. eexists. split; [reflexivity|]. cbn.
  split; [reflexivity|].
  split; [apply prefix_copied_copy; nia|].
  split; [apply prefix_copied_copy; nia|].
  split; [apply prefix_copied_copy; nia|].
  split; [apply prefix_copied_copy; lia|].
  repeat split.
Qed.

End Properties.

(** * Evaluations *)

Example FindInterval_inside :
  FindInterval (times (four_knots kLinearSpline)) (Q2Qc (3 # 2)) 4 = Ok (1, 2).
Proof. vm_compute. reflexivity. Qed.

Example FindInterval_at_knot :
  FindInterval (times (four_knots kLinearSpline)) (dnum 2) 4 = Ok (2, 3).
Proof. vm_compute. reflexivity. Qed.

Example Action_zero_interior :
  Action slope_zero (four_knots kZeroSpline) (Q2Qc (3 # 2)) = Ok [dnum 2].
Proof. vm_compute. reflexivity. Qed.

Example Action_linear_interior :
  Action slope_zero (four_knots kLinearSpline) (Q2Qc (3 # 2)) = Ok [dnum 3].
Proof. vm_compute. reflexivity. Qed.

Example Action_cubic_interior :
  Action slope_zero (four_knots kCubicSpline) (Q2Qc (3 # 2)) = Ok [dnum 3].
Proof. vm_compute. reflexivity. Qed.

Example Action_clamps_both_ways :
  exists p',
    CopyParametersFrom [dnum 20; dnum (-30)] [d_zero; d_one]
                       (two_knots kZeroSpline) = Ok p' /\
    Action slope_zero p' d_zero = Ok [dnum 10] /\
    Action slope_zero p' d_one = Ok [dnum (-10)].
Proof. eexists. split; [reflexivity|]. split; vm_compute; reflexivity. Qed.

Example Allocate_int_overflow :
  Allocate 512 Trajectory_Initialize_unit Trajectory_Allocate_unit
           spline_points_default representation_default
           many_actuators three_residuals 512 unallocated = Undefined.
Proof. vm_compute. reflexivity. Qed.

Example Allocate_negative_size :
  Allocate (-1) Trajectory_Initialize_unit Trajectory_Allocate_unit
           spline_points_default representation_default
           one_actuator three_residuals 0 unallocated = Abort.
Proof. vm_compute. reflexivity. Qed.

Example CopyFrom_into_smaller_capacity :
  CopyFrom (four_knots kLinearSpline) 1 (two_knots kLinearSpline) = Undefined.
Proof. reflexivity. Qed.

(** * The statements at sample policies *)

Ltac wellformed := constructor; cbn; lia.

(** Hold semantics at the two-knot sample in cubic representation, queried
    at time 5. *)
Lemma Action_hold_semantics_witness :
  Wellformed 2 (two_knots kCubicSpline) /\
  1 <= num_spline_points (two_knots kCubicSpline) /\
  exists i0 i1 : Z,
    FindInterval (times (two_knots kCubicSpline)) (dnum 5)
                 (num_spline_points (two_knots kCubicSpline)) = Ok (i0, i1) /\
    0 <= i0 < num_spline_points (two_knots kCubicSpline) /\
    (i0 = i1 \/ representation (two_knots kCubicSpline) = kZeroSpline ->
     Action slope_zero (two_knots kCubicSpline) (dnum 5)
     = Ok (clamped (model (two_knots kCubicSpline))
                   (knot (two_knots kCubicSpline) i0))) /\
    (num_spline_points (two_knots kCubicSpline) = 1 -> i0 = i1) /\
    ((dnum 5 < knot_time (two_knots kCubicSpline) 0)%Qc -> i0 = i1) /\
    (nondecreasing (active_times (two_knots kCubicSpline)) = true ->
     (knot_time (two_knots kCubicSpline)
                (num_spline_points (two_knots kCubicSpline) - 1) < dnum 5)%Qc ->
     i0 = i1).
Proof.
  assert (W : Wellformed 2 (two_knots kCubicSpline)) by wellformed.
  assert (N : 1 <= num_spline_points (two_knots kCubicSpline)) by (cbn; lia).
  split; [exact W|]. split; [exact N|].
  exact (Action_hold_semantics slope_zero 2 (two_knots kCubicSpline) (dnum 5) W N).
Defined.

(** The range bound at the two-knot sample in cubic representation, queried
    at time 1/2. *)
Lemma Action_within_ctrlrange_witness :
  Wellformed 2 (two_knots kCubicSpline) /\
  ordered_ranges (actuator_ctrlrange (model (two_knots kCubicSpline))) = true /\
  exists v : list double,
    Z.of_nat (length v) = nu (model (two_knots kCubicSpline)) /\
    Action slope_zero (two_knots kCubicSpline) d_half
    = Ok (clamped (model (two_knots kCubicSpline)) v) /\
    Z.of_nat (length (clamped (model (two_knots kCubicSpline)) v))
    = nu (model (two_knots kCubicSpline)) /\
    forall (i : nat) (x : double),
      nth_error (clamped (model (two_knots kCubicSpline)) v) i = Some x ->
      x = mju_clip (nth i v d_zero)
                   (ctrl_lo (model (two_knots kCubicSpline)) i)
                   (ctrl_hi (model (two_knots kCubicSpline)) i) /\
      (ctrl_lo (model (two_knots kCubicSpline)) i <= x)%Qc /\
      (x <= ctrl_hi (model (two_knots kCubicSpline)) i)%Qc.
Proof.
  assert (W : Wellformed 2 (two_knots kCubicSpline)) by wellformed.
  assert (K : 1 <= 2) by lia.
  assert (O : ordered_ranges (actuator_ctrlrange (model (two_knots kCubicSpline)))
              = true) by reflexivity.
  split; [exact W|]. split; [exact O|].
  exact (Action_within_ctrlrange slope_zero 2 (two_knots kCubicSpline) d_half W K O).
Defined.

(** Saturation at the two-knot sample in cubic representation, whose knot
    times are 0 and 1. *)
Lemma Action_saturates_witness :
  Wellformed 2 (two_knots kCubicSpline) /\
  nondecreasing (active_times (two_knots kCubicSpline)) = true /\
  (num_spline_points (two_knots kCubicSpline) = 1 \/
   (knot_time (two_knots kCubicSpline) 0 < knot_time (two_knots kCubicSpline) 1)%Qc ->
   forall t : double,
     (t < knot_time (two_knots kCubicSpline) 0)%Qc ->
     Action slope_zero (two_knots kCubicSpline) t
     = Ok (clamped (model (two_knots kCubicSpline))
                   (knot (two_knots kCubicSpline) 0)) /\
     Action slope_zero (two_knots kCubicSpline)
            (knot_time (two_knots kCubicSpline) 0)
     = Ok (clamped (model (two_knots kCubicSpline))
                   (knot (two_knots kCubicSpline) 0))) /\
  (forall t : double,
      (knot_time (two_knots kCubicSpline)
                 (num_spline_points (two_knots kCubicSpline) - 1) < t)%Qc ->
      Action slope_zero (two_knots kCubicSpline) t
      = Ok (clamped (model (two_knots kCubicSpline))
                    (knot (two_knots kCubicSpline)
                          (num_spline_points (two_knots kCubicSpline) - 1))) /\
      Action slope_zero (two_knots kCubicSpline)
             (knot_time (two_knots kCubicSpline)
                        (num_spline_points (two_knots kCubicSpline) - 1))
      = Ok (clamped (model (two_knots kCubicSpline))
                    (knot (two_knots kCubicSpline)
                          (num_spline_points (two_knots kCubicSpline) - 1)))).
Proof.
  assert (W : Wellformed 2 (two_knots kCubicSpline)) by wellformed.
  assert (N : 1 <= num_spline_points (two_knots kCubicSpline)) by (cbn; lia).
  assert (S : nondecreasing (active_times (two_knots kCubicSpline)) = true)
    by reflexivity.
  split; [exact W|]. split; [exact S|].
  exact (Action_saturates slope_zero 2 (two_knots kCubicSpline) W N S).
Defined.

(** With the first knot time repeated, the action just before the first knot
    time (the first knot) differs from the action at it (the second knot). *)
Lemma Action_saturates_repeated_first_knot :
  Wellformed 2 repeated_first_knot /\
  1 <= num_spline_points repeated_first_knot /\
  nondecreasing (active_times repeated_first_knot) = true /\
  (dnum (-1) < knot_time repeated_first_knot 0)%Qc /\
  Action slope_zero repeated_first_knot (dnum (-1)) = Ok [dnum 1] /\
  Action slope_zero repeated_first_knot (knot_time repeated_first_knot 0)
  = Ok [dnum 2] /\
  Action slope_zero repeated_first_knot (dnum (-1))
  <> Action slope_zero repeated_first_knot (knot_time repeated_first_knot 0).
Proof.
  assert (A : Action slope_zero repeated_first_knot (dnum (-1)) = Ok [dnum 1])
    by (vm_compute; reflexivity).
  assert (B : Action slope_zero repeated_first_knot
                     (knot_time repeated_first_knot 0) = Ok [dnum 2])
    by (vm_compute; reflexivity).
  split; [wellformed|]. split; [cbn; lia|]. split; [reflexivity|].
  split; [apply dlt_true; reflexivity|]. split; [exact A|]. split; [exact B|].
  rewrite A, B. intros E. injection E as E. discriminate E.
Qed.



(** [Reset] with horizon 1 on the two-knot sample. *)
Lemma Reset_zeroes_prefixes_witness :
  Wellformed 2 (two_knots kLinearSpline) /\
  0 <= 1 <= 2 /\
  exists p',
    Reset Trajectory_Reset_unit 1 (two_knots kLinearSpline) = Ok p' /\
    prefix_zeroed (1 * nu (model (two_knots kLinearSpline)))
                  (k (two_knots kLinearSpline)) (k p') /\
    prefix_zeroed (1 * nu (model (two_knots kLinearSpline)))
                  (parameters (two_knots kLinearSpline)) (parameters p') /\
    prefix_zeroed 1 (times (two_knots kLinearSpline)) (times p').
Proof.
  assert (W : Wellformed 2 (two_knots kLinearSpline)) by wellformed.
  assert (H : 0 <= 1 <= 2) by lia.
  split; [exact W|]. split; [exact H|].
  exact (Reset_zeroes_prefixes Trajectory_Reset_unit 2 (two_knots kLinearSpline)
                               1 tt W H eq_refl).
Defined.

(** [Reset] with horizon 1 on the two-knot sample, seen at
    [parameter_update]. *)
Lemma Reset_zeroes_parameter_update_witness :
  Wellformed 2 (two_knots kLinearSpline) /\
  0 <= 1 <= 2 /\
  exists p',
    Reset Trajectory_Reset_unit 1 (two_knots kLinearSpline) = Ok p' /\
    prefix_zeroed (1 * nu (model (two_knots kLinearSpline)))
                  (parameter_update (two_knots kLinearSpline))
                  (parameter_update p').
Proof.
  assert (W : Wellformed 2 (two_knots kLinearSpline)) by wellformed.
  assert (H : 0 <= 1 <= 2) by lia.
  split; [exact W|]. split; [exact H|].
  exact (Reset_zeroes_parameter_update Trajectory_Reset_unit 2
                                       (two_knots kLinearSpline) 1 tt W H eq_refl).
Defined.

(** [Reset] with horizon 3 on the two-knot sample, whose capacity is 2. *)
Lemma Reset_beyond_capacity_witness :
  Wellformed 2 (two_knots kLinearSpline) /\
  2 < 3 /\
  (Reset Trajectory_Reset_unit 3 (two_knots kLinearSpline) = Abort <->
   Trajectory_Reset_unit 3 (trajectory (two_knots kLinearSpline)) = Abort) /\
  (forall tr : unit,
      Trajectory_Reset_unit 3 (trajectory (two_knots kLinearSpline)) = Ok tr ->
      Reset Trajectory_Reset_unit 3 (two_knots kLinearSpline) = Undefined).
Proof.
  assert (W : Wellformed 2 (two_knots kLinearSpline)) by wellformed.
  assert (H : 2 < 3) by lia.
  split; [exact W|]. split; [exact H|].
  exact (Reset_beyond_capacity Trajectory_Reset_unit 2 (two_knots kLinearSpline)
                               3 W H).
Defined.

(** A horizon of 3 on a capacity of 2: [Reset] does not stop with an error,
    it runs into the fill past the end of the improvement buffer. *)
Lemma Reset_beyond_capacity_no_abort :
  Wellformed 2 (two_knots kLinearSpline) /\
  2 < 3 /\
  Reset Trajectory_Reset_unit 3 (two_knots kLinearSpline) = Undefined /\
  Reset Trajectory_Reset_unit 3 (two_knots kLinearSpline) <> Abort.
Proof.
  assert (R : Reset Trajectory_Reset_unit 3 (two_knots kLinearSpline) = Undefined)
    by reflexivity.
  split; [wellformed|]. split; [lia|]. split; [exact R|].
  rewrite R. discriminate.
Qed.

(** The two-knot sample in linear representation: parameters 2 and 4 at
    times 0 and 1. *)
Lemma Action_linear_two_knots_witness :
  representation (two_knots kLinearSpline) = kLinearSpline /\
  num_spline_points (two_knots kLinearSpline) = 2 /\
  times (two_knots kLinearSpline) = d_zero :: d_one :: [] /\
  parameters (two_knots kLinearSpline) = [dnum 2] ++ [dnum 4] ++ [] /\
  Action slope_zero (two_knots kLinearSpline) d_half
  = Ok (clamped (model (two_knots kLinearSpline)) (midpoint [dnum 2] [dnum 4])) /\
  Action slope_zero (two_knots kLinearSpline) d_zero
  = Ok (clamped (model (two_knots kLinearSpline)) [dnum 2]) /\
  Action slope_zero (two_knots kLinearSpline) d_one
  = Ok (clamped (model (two_knots kLinearSpline)) [dnum 4]).
Proof.
  split; [reflexivity|]. split; [reflexivity|].
  split; [reflexivity|]. split; [reflexivity|].
  apply (Action_linear_two_knots slope_zero (two_knots kLinearSpline)
                                 [dnum 2] [dnum 4] [] []);
    try reflexivity; cbn; lia.
Defined.

(** Three supplied parameters and two supplied times copied into the
    two-knot sample. *)
Lemma CopyParametersFrom_frame_witness :
  Wellformed 2 (two_knots kLinearSpline) /\
  num_spline_points (two_knots kLinearSpline) * nu (model (two_knots kLinearSpline))
  <= Z.of_nat (length [dnum 1; dnum 3; dnum 9]) /\
  num_spline_points (two_knots kLinearSpline)
  <= Z.of_nat (length [d_zero; dnum 2]) /\
  exists this',
    CopyParametersFrom [dnum 1; dnum 3; dnum 9] [d_zero; dnum 2]
                       (two_knots kLinearSpline) = Ok this' /\
    prefix_copied (num_spline_points (two_knots kLinearSpline)
                   * nu (model (two_knots kLinearSpline)))
                  [dnum 1; dnum 3; dnum 9]
                  (parameters (two_knots kLinearSpline)) (parameters this') /\
    prefix_copied (num_spline_points (two_knots kLinearSpline))
                  [d_zero; dnum 2]
                  (times (two_knots kLinearSpline)) (times this') /\
    representation this' = representation (two_knots kLinearSpline) /\
    num_parameters this' = num_parameters (two_knots kLinearSpline) /\
    num_spline_points this' = num_spline_points (two_knots kLinearSpline) /\
    k this' = k (two_knots kLinearSpline) /\
    parameter_update this' = parameter_update (two_knots kLinearSpline) /\
    trajectory this' = trajectory (two_knots kLinearSpline) /\
    model this' = model (two_knots kLinearSpline).
Proof.
  assert (W : Wellformed 2 (two_knots kLinearSpline)) by wellformed.
  assert (SP : num_spline_points (two_knots kLinearSpline)
               * nu (model (two_knots kLinearSpline))
               <= Z.of_nat (length [dnum 1; dnum 3; dnum 9])) by (cbn; lia).
  assert (ST : num_spline_points (two_knots kLinearSpline)
               <= Z.of_nat (length [d_zero; dnum 2])) by (cbn; lia).
  split; [exact W|]. split; [exact SP|]. split; [exact ST|].
  exact (CopyParametersFrom_frame 2 (two_knots kLinearSpline)
                                  [dnum 1; dnum 3; dnum 9] [d_zero; dnum 2]
                                  W SP ST).
Defined.

(** The two-knot sample copied, with horizon 1, over the sample with a
    repeated first knot. *)
Lemma CopyFrom_copies_witness :
  Wellformed 2 (two_knots kCubicSpline) /\
  Wellformed 2 repeated_first_knot /\
  nu (model (two_knots kCubicSpline)) = nu (model repeated_first_knot) /\
  0 <= 1 <= 2 /\
  exists this',
    CopyFrom (two_knots kCubicSpline) 1 repeated_first_knot = Ok this' /\
    trajectory this' = trajectory (two_knots kCubicSpline) /\
    prefix_copied (1 * nu (model repeated_first_knot))
                  (k (two_knots kCubicSpline)) (k repeated_first_knot) (k this') /\
    prefix_copied (num_parameters (two_knots kCubicSpline))
                  (parameters (two_knots kCubicSpline))
                  (parameters repeated_first_knot) (parameters this') /\
    prefix_copied (num_parameters (two_knots kCubicSpline))
                  (parameter_update (two_knots kCubicSpline))
                  (parameter_update repeated_first_knot)
                  (parameter_update this') /\
    prefix_copied (num_spline_points (two_knots kCubicSpline))
                  (times (two_knots kCubicSpline))
                  (times repeated_first_knot) (times this') /\
    num_spline_points this' = num_spline_points (two_knots kCubicSpline) /\
    num_parameters this' = num_parameters (two_knots kCubicSpline) /\
    representation this' = representation (two_knots kCubicSpline).
Proof.
  assert (Ws : Wellformed 2 (two_knots kCubicSpline)) by wellformed.
  assert (Wd : Wellformed 2 repeated_first_knot) by wellformed.
  assert (E : nu (model (two_knots kCubicSpline)) = nu (model repeated_first_knot))
    by reflexivity.
  assert (H : 0 <= 1 <= 2) by lia.
  split; [exact Ws|]. split; [exact Wd|]. split; [exact E|]. split; [exact H|].
  exact (CopyFrom_copies 2 (two_knots kCubicSpline) repeated_first_knot 1
                         Ws Wd E H).
Defined.

(** * The life cycle of a policy: allocation, reset and copies *)

(** ** More on buffers *)

Lemma fill_zero_length (v w : list double) (n : Z) :
  fill_zero v n = Ok w -> length w = length v.
Proof.
  unfold fill_zero. destruct (in_range n v) eqn:R; [|discriminate].
  apply in_range_true in R. intros H. injection H as <-.
  rewrite length_app, repeat_length, length_skipn. lia.
Qed.

Lemma fill_zero_outside (v : list double) (n : Z) :
  n < 0 \/ Z.of_nat (length v) < n -> fill_zero v n = Undefined.
Proof.
  intros H. unfold fill_zero. apply in_range_false in H. now rewrite H.
Qed.

Lemma fill_zero_nothing (v : list double) : fill_zero v 0 = Ok v.
Proof. rewrite fill_zero_Ok by lia. reflexivity. Qed.

Lemma mju_copy_length (res vec w : list double) (n : Z) :
  mju_copy res vec n = Ok w -> length w = length res.
Proof.
  unfold mju_copy.
  destruct (in_range n res) eqn:R; [|discriminate].
  destruct (in_range n vec) eqn:V; [|discriminate].
  apply in_range_true in R, V. intros H. injection H as <-.
  rewrite length_app, length_firstn, length_skipn. lia.
Qed.

Lemma mju_copy_outside (res vec : list double) (n : Z) :
  n < 0 \/ Z.of_nat (length res) < n \/ Z.of_nat (length vec) < n ->
  mju_copy res vec n = Undefined.
Proof.
  intros H. unfold mju_copy.
  destruct (in_range n res) eqn:R; [|reflexivity].
  destruct (in_range n vec) eqn:V; [|reflexivity].
  apply in_range_true in R, V. lia.
Qed.

Lemma mju_copy_not_Abort (res vec : list double) (n : Z) :
  mju_copy res vec n <> Abort.
Proof.
  unfold mju_copy. destruct (in_range n res && in_range n vec); discriminate.
Qed.

Lemma resize_Ok (v : list double) (n : Z) :
  0 <= n ->
  resize v n = Ok (firstn (Z.to_nat n) v ++ repeat d_zero (Z.to_nat n - length v)).
Proof.
  intros H. unfold resize.
  assert ((0 <=? n) = true) as -> by (apply Z.leb_le; lia).
  reflexivity.
Qed.

Lemma resized_length (v : list double) (n : nat) :
  length (firstn n v ++ repeat d_zero (n - length v)) = n.
Proof. rewrite length_app, length_firstn, repeat_length. lia. Qed.

Lemma resized_nth_error (v : list double) (n : Z) (i : nat) :
  nth_error (firstn (Z.to_nat n) v ++ repeat d_zero (Z.to_nat n - length v)) i =
  if Z.of_nat i <? n then Some (nth i v d_zero) else None.
Proof.
  rewrite nth_error_app, length_firstn.
  destruct (Z.ltb_spec (Z.of_nat i) n) as [L|L].
  - destruct (Nat.ltb_spec i (Nat.min (Z.to_nat n) (length v))) as [M|M].
    + rewrite nth_error_firstn.
      replace (i <? Z.to_nat n)%nat with true by (symmetry; apply Nat.ltb_lt; lia).
      apply nth_error_nth'. lia.
    + rewrite nth_error_repeat by lia.
      rewrite nth_overflow by lia. reflexivity.
  - destruct (Nat.ltb_spec i (Nat.min (Z.to_nat n) (length v))) as [M|M]; [lia|].
    apply nth_error_None. rewrite repeat_length. lia.
Qed.

Lemma resized_same (v : list double) (n : Z) :
  Z.of_nat (length v) = n ->
  firstn (Z.to_nat n) v ++ repeat d_zero (Z.to_nat n - length v) = v.
Proof.
  intros H. replace (Z.to_nat n) with (length v) by lia.
  rewrite firstn_all, Nat.sub_diag. cbn [repeat]. apply app_nil_r.
Qed.

Lemma int_add_Ok (a b : Z) :
  INT_MIN <= a + b <= INT_MAX -> int_add a b = Ok (a + b).
Proof.
  intros H. unfold int_add, int_range.
  assert ((INT_MIN <=? a + b) = true) as -> by (apply Z.leb_le; lia).
  assert ((a + b <=? INT_MAX) = true) as -> by (apply Z.leb_le; lia).
  reflexivity.
Qed.

Lemma int_mul_Ok (a b : Z) :
  INT_MIN <= a * b <= INT_MAX -> int_mul a b = Ok (a * b).
Proof.
  intros H. unfold int_mul, int_range.
  assert ((INT_MIN <=? a * b) = true) as -> by (apply Z.leb_le; lia).
  assert ((a * b <=? INT_MAX) = true) as -> by (apply Z.leb_le; lia).
  reflexivity.
Qed.

Lemma int_mul_overflow (a b : Z) :
  INT_MAX < a * b -> int_mul a b = Undefined.
Proof.
  intros H. unfold int_mul, int_range.
  assert ((a * b <=? INT_MAX) = false) as -> by (apply Z.leb_gt; lia).
  now rewrite andb_false_r.
Qed.

(** Zeroing a prefix and then another one zeroes the longer of the two. *)
Lemma prefix_zeroed_twice (a b : Z) (v w x : list double) :
  prefix_zeroed a v w -> prefix_zeroed b w x ->
  prefix_zeroed (Z.max a b) v x.
Proof.
  intros Hw Hx i. rewrite Hx, Hw.
  destruct (Z.ltb_spec (Z.of_nat i) b), (Z.ltb_spec (Z.of_nat i) a),
           (Z.ltb_spec (Z.of_nat i) (Z.max a b)); try reflexivity; lia.
Qed.

(** A copied prefix hides whatever an earlier copy of the same length left. *)
Lemma copy_over_copy (n : nat) (a b v : list double) :
  (n <= length a)%nat ->
  firstn n b ++ skipn n (firstn n a ++ skipn n v) = firstn n b ++ skipn n v.
Proof.
  intros H. f_equal.
  rewrite skipn_app, length_firstn.
  replace (Nat.min n (length a)) with n by lia.
  rewrite skipn_all2 by (rewrite length_firstn; lia).
  rewrite Nat.sub_diag. reflexivity.
Qed.

(** A copy of as many entries as both buffers hold replaces the buffer. *)
Lemma copy_whole (src v : list double) :
  length src = length v ->
  firstn (length v) src ++ skipn (length v) v = src.
Proof.
  intros H. rewrite skipn_all, app_nil_r.
  rewrite <- H. apply firstn_all.
Qed.

Section Lifecycle.

Context {Trajectory : Type}.
Variable Trajectory_Reset : Z -> Trajectory -> outcome Trajectory.
Variable slope : list double -> list double -> Z -> Z -> Z -> Z -> double.
Variable kMax : Z.
Variable Trajectory_Initialize : Z -> Z -> Z -> Z -> Trajectory -> outcome Trajectory.
Variable Trajectory_Allocate : Z -> Trajectory -> outcome Trajectory.
Variable GetNumberOrDefault_spline_points : Z -> mjModel -> Z.
Variable GetNumberOrDefault_representation :
  PolicyRepresentation -> mjModel -> PolicyRepresentation.

Local Abbreviation allocate :=
  (Allocate kMax Trajectory_Initialize Trajectory_Allocate
            GetNumberOrDefault_spline_points GetNumberOrDefault_representation).

Implicit Types p q this policy : GradientPolicy (Trajectory := Trajectory).

(** ** Allocate *)

(** The policy that [Allocate] leaves behind when no [int] overflows and the
    trajectory's own operations return. *)
Lemma Allocate_Ok (m : mjModel) (task : Task) (horizon : Z) p (tr1 tr2 : Trajectory) :
  INT_MIN <= nq m + nv m <= INT_MAX ->
  INT_MIN <= nq m + nv m + na m <= INT_MAX ->
  0 <= nu m * kMax <= INT_MAX ->
  0 <= kMax ->
  Trajectory_Initialize (nq m + nv m + na m) (nu m) (num_residual task) kMax
                        (trajectory p) = Ok tr1 ->
  Trajectory_Allocate kMax tr1 = Ok tr2 ->
  allocate m task horizon p =
  Ok {| model := m;
        trajectory := tr2;
        k := firstn (Z.to_nat (nu m * kMax)) (k p)
             ++ repeat d_zero (Z.to_nat (nu m * kMax) - length (k p));
        parameters := firstn (Z.to_nat (nu m * kMax)) (parameters p)
                      ++ repeat d_zero (Z.to_nat (nu m * kMax) - length (parameters p));
        parameter_update :=
          firstn (Z.to_nat (nu m * kMax)) (parameter_update p)
          ++ repeat d_zero (Z.to_nat (nu m * kMax) - length (parameter_update p));
        times := firstn (Z.to_nat kMax) (times p)
                 ++ repeat d_zero (Z.to_nat kMax - length (times p));
        num_parameters := nu m * kMax;
        num_spline_points := GetNumberOrDefault_spline_points kMax m;
        representation := GetNumberOrDefault_representation kLinearSpline m |}.
Proof.
  intros Hqv Hs Hn Hk T1 T2. unfold Allocate.
  rewrite (int_add_Ok (nq m) (nv m)) by lia. cbn [bind].
  rewrite (int_add_Ok (nq m + nv m) (na m)) by lia. cbn [bind].
  rewrite T1. cbn [bind]. rewrite T2. cbn [bind].
  rewrite !(int_mul_Ok (nu m) kMax) by (unfold INT_MIN; lia). cbn [bind].
  rewrite !resize_Ok by lia. reflexivity.
Qed.

(** X1.  Whatever state the policy was in: when the state dimension
    [nq + nv + na] and the size [nu * kMaxTrajectoryHorizon] stay within the
    range of [int], the trajectory's [Initialize] and [Allocate] return, the
    model has [nu >= 0] actuators with a range table of [2 * nu] entries and
    the configured knot count lies within the capacity, [Allocate] returns a
    policy that satisfies the capacity invariants.  Its [num_parameters] is
    the full capacity [nu * kMaxTrajectoryHorizon], not the number of active
    parameters, and its model, trajectory, knot count and representation
    are the model given, the trajectory those two calls returned and the
    two configured values. *)
Theorem Allocate_establishes_invariants (m : mjModel) (task : Task) (horizon : Z)
        p (tr1 tr2 : Trajectory) :
  INT_MIN <= nq m + nv m <= INT_MAX ->
  INT_MIN <= nq m + nv m + na m <= INT_MAX ->
  0 <= nu m ->
  0 <= kMax ->
  nu m * kMax <= INT_MAX ->
  Z.of_nat (length (actuator_ctrlrange m)) = 2 * nu m ->
  0 <= GetNumberOrDefault_spline_points kMax m <= kMax ->
  Trajectory_Initialize (nq m + nv m + na m) (nu m) (num_residual task) kMax
                        (trajectory p) = Ok tr1 ->
  Trajectory_Allocate kMax tr1 = Ok tr2 ->
  exists q,
    allocate m task horizon p = Ok q /\
    Wellformed kMax q /\
    model q = m /\
    trajectory q = tr2 /\
    num_parameters q = nu m * kMax /\
    num_spline_points q = GetNumberOrDefault_spline_points kMax m /\
    representation q = GetNumberOrDefault_representation kLinearSpline m.
Proof.
  intros Hqv Hs Hn Hk Ho Hr Hc T1 T2.
  eexists. split; [apply (Allocate_Ok m task horizon p tr1 tr2); auto; nia|].
  split; [|repeat split].
  constructor; cbn; try assumption; try reflexivity;
    rewrite resized_length; nia.
Qed.

(** X2.  [Allocate] does not clear what the buffers held.  Under the same
    conditions on the [int] sizes and the trajectory, entry [i] of each
    buffer below the new size is the entry the buffer had at [i], and zero
    where the buffer had none; nothing lies beyond the new size. *)
Theorem Allocate_buffer_contents (m : mjModel) (task : Task) (horizon : Z)
        p (tr1 tr2 : Trajectory) :
  INT_MIN <= nq m + nv m <= INT_MAX ->
  INT_MIN <= nq m + nv m + na m <= INT_MAX ->
  0 <= nu m ->
  0 <= kMax ->
  nu m * kMax <= INT_MAX ->
  Trajectory_Initialize (nq m + nv m + na m) (nu m) (num_residual task) kMax
                        (trajectory p) = Ok tr1 ->
  Trajectory_Allocate kMax tr1 = Ok tr2 ->
  exists q,
    allocate m task horizon p = Ok q /\
    forall i : nat,
      nth_error (k q) i
      = (if Z.of_nat i <? nu m * kMax then Some (nth i (k p) d_zero) else None) /\
      nth_error (parameters q) i
      = (if Z.of_nat i <? nu m * kMax
         then Some (nth i (parameters p) d_zero) else None) /\
      nth_error (parameter_update q) i
      = (if Z.of_nat i <? nu m * kMax
         then Some (nth i (parameter_update p) d_zero) else None) /\
      nth_error (times q) i
      = (if Z.of_nat i <? kMax then Some (nth i (times p) d_zero) else None).
Proof.
  intros Hqv Hs Hn Hk Ho T1 T2.
  eexists. split; [apply (Allocate_Ok m task horizon p tr1 tr2); auto; nia|].
  intros i. cbn. repeat split; apply resized_nth_error.
Qed.

(** X3.  Allocating again keeps the knots.  On a policy that already has
    its full capacity for a model with the same [nu], and under the same
    conditions on the [int] sizes and the trajectory, [Allocate] returns and
    leaves the four buffers and [num_parameters] exactly as they were: it
    sets the model, the trajectory and the two configured values only. *)
Theorem Allocate_again (m : mjModel) (task : Task) (horizon : Z)
        p (tr1 tr2 : Trajectory) :
  Wellformed kMax p ->
  nu (model p) = nu m ->
  INT_MIN <= nq m + nv m <= INT_MAX ->
  INT_MIN <= nq m + nv m + na m <= INT_MAX ->
  nu m * kMax <= INT_MAX ->
  Trajectory_Initialize (nq m + nv m + na m) (nu m) (num_residual task) kMax
                        (trajectory p) = Ok tr1 ->
  Trajectory_Allocate kMax tr1 = Ok tr2 ->
  exists q,
    allocate m task horizon p = Ok q /\
    k q = k p /\
    parameters q = parameters p /\
    parameter_update q = parameter_update p /\
    times q = times p /\
    num_parameters q = num_parameters p.
Proof.
  intros W En Hqv Hs Ho T1 T2. destruct W. rewrite En in *.
  eexists. split; [apply (Allocate_Ok m task horizon p tr1 tr2); auto; nia|].
  cbn. repeat split; try (apply resized_same; assumption).
  now symmetry.
Qed.

(** ** Reset *)

Lemma Reset_outside_capacity p (h : Z) (tr : Trajectory) :
  Wellformed kMax p ->
  h < 0 \/ kMax < h ->
  Trajectory_Reset h (trajectory p) = Ok tr ->
  Reset Trajectory_Reset h p = Undefined.
Proof.
  intros W H T. destruct W. unfold Reset. rewrite T. cbn [bind].
  destruct (Z.eq_dec (nu (model p)) 0) as [E|E].
  - rewrite E, Z.mul_0_r, Z.mul_0_l.
    rewrite !fill_zero_nothing. cbn [bind].
    rewrite (fill_zero_outside (times p) h) by lia. reflexivity.
  - rewrite (fill_zero_outside (k p)) by nia. reflexivity.
Qed.

(** X4.  On a policy of full capacity whose trajectory reset returns,
    [Reset h] returns exactly when [0 <= h <= kMaxTrajectoryHorizon]; for
    any other horizon a fill leaves its buffer. *)
Theorem Reset_returns_iff p (h : Z) (tr : Trajectory) :
  Wellformed kMax p ->
  Trajectory_Reset h (trajectory p) = Ok tr ->
  (exists p', Reset Trajectory_Reset h p = Ok p') <-> 0 <= h <= kMax.
Proof.
  intros W T. split.
  - intros (p' & R).
    destruct (Z_lt_le_dec h 0) as [L|L].
    + rewrite (Reset_outside_capacity p h tr W (or_introl L) T) in R. discriminate.
    + destruct (Z_lt_le_dec kMax h) as [G|G]; [|lia].
      rewrite (Reset_outside_capacity p h tr W (or_intror G) T) in R. discriminate.
  - intros H. eexists. apply (Reset_Ok Trajectory_Reset kMax p h tr W H T).
Qed.

(** X5.  [Reset 0] fills empty ranges only: on any policy, of any buffer
    sizes, it returns the policy unchanged but for the trajectory, which is
    the one its own reset returned. *)
Theorem Reset_zero_horizon p (tr : Trajectory) :
  Trajectory_Reset 0 (trajectory p) = Ok tr ->
  Reset Trajectory_Reset 0 p = Ok (with_trajectory tr p).
Proof.
  intros T. unfold Reset. rewrite T. cbn [bind].
  rewrite Z.mul_0_r, Z.mul_0_l, !fill_zero_nothing. reflexivity.
Qed.

(** X6.  Whenever [Reset] returns, the buffers have the sizes they had, so a
    policy of full capacity stays one, and the model, [num_spline_points],
    [num_parameters] and [representation] are untouched: the active knot
    count is not reset. *)
Theorem Reset_preserves_invariants p p' (h : Z) :
  Wellformed kMax p ->
  Reset Trajectory_Reset h p = Ok p' ->
  Wellformed kMax p' /\
  model p' = model p /\
  num_spline_points p' = num_spline_points p /\
  num_parameters p' = num_parameters p /\
  representation p' = representation p.
Proof.
  intros W R. unfold Reset in R.
  apply bind_Ok in R. destruct R as (tr & _ & R).
  apply bind_Ok in R. destruct R as (k' & Hk & R).
  apply bind_Ok in R. destruct R as (pa' & Hp & R).
  apply bind_Ok in R. destruct R as (pu' & Hu & R).
  apply bind_Ok in R. destruct R as (ti' & Ht & R).
  injection R as <-.
  apply fill_zero_length in Hk, Hp, Hu, Ht.
  destruct W. split; [|cbn; auto].
  constructor; cbn; try assumption; congruence.
Qed.

(** X7.  Two resets in a row zero the longer of the two prefixes: after
    [Reset h1] and then [Reset h2], each buffer is the original one with its
    first [max h1 h2] knots set to zero. *)
Theorem Reset_twice p (h1 h2 : Z) (tr1 tr2 : Trajectory) :
  Wellformed kMax p ->
  0 <= h1 <= kMax ->
  0 <= h2 <= kMax ->
  Trajectory_Reset h1 (trajectory p) = Ok tr1 ->
  Trajectory_Reset h2 tr1 = Ok tr2 ->
  exists p1 p2,
    Reset Trajectory_Reset h1 p = Ok p1 /\
    Reset Trajectory_Reset h2 p1 = Ok p2 /\
    prefix_zeroed (Z.max h1 h2 * nu (model p)) (k p) (k p2) /\
    prefix_zeroed (Z.max h1 h2 * nu (model p)) (parameters p) (parameters p2) /\
    prefix_zeroed (Z.max h1 h2 * nu (model p))
                  (parameter_update p) (parameter_update p2) /\
    prefix_zeroed (Z.max h1 h2) (times p) (times p2).
Proof.
  intros W H1 H2 T1 T2.
  pose proof (Reset_Ok Trajectory_Reset kMax p h1 tr1 W H1 T1) as R1.
  match type of R1 with _ = Ok ?q => set (p1 := q) in * end.
  assert (W1 : Wellformed kMax p1)
    by exact (Reset_Wellformed Trajectory_Reset kMax p p1 h1 W H1 R1).
  assert (T2' : Trajectory_Reset h2 (trajectory p1) = Ok tr2) by exact T2.
  pose proof (Reset_Ok Trajectory_Reset kMax p1 h2 tr2 W1 H2 T2') as R2.
  match type of R2 with _ = Ok ?q => set (p2 := q) in * end.
  exists p1, p2. split; [exact R1|]. split; [exact R2|].
  pose proof (wf_nu _ _ W) as Hn.
  assert (M : Z.max h1 h2 * nu (model p)
              = Z.max (h1 * nu (model p)) (h2 * nu (model p)))
    by (destruct (Z.max_spec h1 h2) as [[? ->]|[? ->]]; nia).
  rewrite M. destruct W.
  repeat split; cbn;
    replace (nu (model p) * h1) with (h1 * nu (model p)) by lia;
    replace (nu (model p) * h2) with (h2 * nu (model p)) by lia;
    (eapply prefix_zeroed_twice;
     [apply prefix_zeroed_fill|apply prefix_zeroed_fill; rewrite zeroed_length]);
    nia.
Qed.

(** ** CopyFrom *)

Lemma mju_copy_Ok_inv (res vec w : list double) (n : Z) :
  mju_copy res vec n = Ok w ->
  0 <= n /\ n <= Z.of_nat (length res) /\ n <= Z.of_nat (length vec).
Proof.
  unfold mju_copy.
  destruct (in_range n res) eqn:R; [|discriminate].
  destruct (in_range n vec) eqn:V; [|discriminate].
  apply in_range_true in R, V. intros _. lia.
Qed.

(** The policy that [CopyFrom] leaves behind. *)
Lemma CopyFrom_Ok policy this (h : Z) :
  Wellformed kMax policy ->
  Wellformed kMax this ->
  nu (model policy) = nu (model this) ->
  0 <= h * nu (model this) <= nu (model this) * kMax ->
  CopyFrom policy h this =
  Ok {| model := model this;
        trajectory := trajectory policy;
        k := firstn (Z.to_nat (h * nu (model this))) (k policy)
             ++ skipn (Z.to_nat (h * nu (model this))) (k this);
        parameters := firstn (Z.to_nat (num_parameters policy)) (parameters policy)
                      ++ skipn (Z.to_nat (num_parameters policy)) (parameters this);
        parameter_update :=
          firstn (Z.to_nat (num_parameters policy)) (parameter_update policy)
          ++ skipn (Z.to_nat (num_parameters policy)) (parameter_update this);
        times := firstn (Z.to_nat (num_spline_points policy)) (times policy)
                 ++ skipn (Z.to_nat (num_spline_points policy)) (times this);
        num_parameters := num_parameters policy;
        num_spline_points := num_spline_points policy;
        representation := representation policy |}.
Proof.
  intros Ws Wd E H. destruct Ws, Wd. unfold CopyFrom.
  rewrite (mju_copy_Ok (k this)) by nia.
  rewrite (mju_copy_Ok (parameters this)) by nia.
  rewrite (mju_copy_Ok (parameter_update this)) by nia.
  rewrite (mju_copy_Ok (times this)) by lia.
  reflexivity.
Qed.

(** X8.  Between two policies of the same capacity, [CopyFrom] replaces
    [parameters] and [parameter_update] as a whole, whatever the horizon:
    their extent is the source's [num_parameters], which is the capacity.
    The horizon [h] bounds the copy of the improvement buffer only. *)
Theorem CopyFrom_whole_parameters policy this (h : Z) :
  Wellformed kMax policy ->
  Wellformed kMax this ->
  nu (model policy) = nu (model this) ->
  0 <= h <= kMax ->
  exists this',
    CopyFrom policy h this = Ok this' /\
    parameters this' = parameters policy /\
    parameter_update this' = parameter_update policy.
Proof.
  intros Ws Wd E H. pose proof (wf_nu _ _ Wd) as Hn.
  eexists. split; [apply (CopyFrom_Ok policy this h Ws Wd E); nia|].
  destruct Ws, Wd. cbn. split.
  - replace (Z.to_nat (num_parameters policy)) with (length (parameters this)) by nia.
    apply copy_whole. nia.
  - replace (Z.to_nat (num_parameters policy))
      with (length (parameter_update this)) by nia.
    apply copy_whole. nia.
Qed.

(** X9.  Whenever [CopyFrom] returns between policies with the same [nu],
    the destination keeps its buffer sizes and its own model (the model is
    not copied), and it satisfies the capacity invariants if both policies
    did. *)
Theorem CopyFrom_preserves_invariants policy this this' (h : Z) :
  Wellformed kMax policy ->
  Wellformed kMax this ->
  nu (model policy) = nu (model this) ->
  CopyFrom policy h this = Ok this' ->
  Wellformed kMax this' /\ model this' = model this.
Proof.
  intros Ws Wd E C. unfold CopyFrom in C.
  apply bind_Ok in C. destruct C as (k' & Hk & C).
  apply bind_Ok in C. destruct C as (pa' & Hp & C).
  apply bind_Ok in C. destruct C as (pu' & Hu & C).
  apply bind_Ok in C. destruct C as (ti' & Ht & C).
  injection C as <-.
  apply mju_copy_length in Hk, Hp, Hu, Ht.
  destruct Ws, Wd. split; [|reflexivity].
  constructor; cbn; try assumption; congruence.
Qed.

(** X10.  Between two policies of the same capacity and [nu], [CopyFrom]
    returns exactly when [0 <= h * nu <= nu * kMaxTrajectoryHorizon]: the
    horizon is the only argument that can take a copy out of its buffers,
    and with no actuator it is not looked at. *)
Theorem CopyFrom_returns_iff policy this (h : Z) :
  Wellformed kMax policy ->
  Wellformed kMax this ->
  nu (model policy) = nu (model this) ->
  (exists this', CopyFrom policy h this = Ok this') <->
  0 <= h * nu (model this) <= nu (model this) * kMax.
Proof.
  intros Ws Wd E. split.
  - intros (this' & C). unfold CopyFrom in C.
    apply bind_Ok in C. destruct C as (k' & Hk & _).
    apply mju_copy_Ok_inv in Hk. pose proof (wf_k _ _ Wd). lia.
  - intros H. eexists. apply (CopyFrom_Ok policy this h Ws Wd E H).
Qed.

(** X11.  [CopyFrom] takes the extent of the parameter copy from the source
    alone: from a source of larger capacity it runs past the end of the
    destination's buffers for every horizon, and no error is reported. *)
Theorem CopyFrom_larger_source policy this (h kS : Z) :
  Wellformed kS policy ->
  Wellformed kMax this ->
  nu (model policy) = nu (model this) ->
  0 < nu (model this) ->
  kMax < kS ->
  CopyFrom policy h this = Undefined.
Proof.
  intros Ws Wd E N K. destruct Ws, Wd. unfold CopyFrom.
  destruct (mju_copy (k this) (k policy) (h * nu (model this))) as [k'| |] eqn:Hk.
  - cbn [bind].
    rewrite (mju_copy_outside (parameters this)) by nia. reflexivity.
  - exfalso. exact (mju_copy_not_Abort _ _ _ Hk).
  - reflexivity.
Qed.

(** X12.  Copying the same source a second time changes nothing. *)
Theorem CopyFrom_idempotent policy this (h : Z) :
  Wellformed kMax policy ->
  Wellformed kMax this ->
  nu (model policy) = nu (model this) ->
  0 <= h <= kMax ->
  exists this',
    CopyFrom policy h this = Ok this' /\
    CopyFrom policy h this' = Ok this'.
Proof.
  intros Ws Wd E H. pose proof (wf_nu _ _ Wd) as Hn.
  pose proof (CopyFrom_Ok policy this h Ws Wd E ltac:(nia)) as C.
  match type of C with _ = Ok ?q => set (this' := q) in * end.
  exists this'. split; [exact C|].
  assert (Wd' : Wellformed kMax this'
                /\ model this' = model this)
    by exact (CopyFrom_preserves_invariants policy this this' h Ws Wd E C).
  destruct Wd' as (Wd' & Em).
  rewrite (CopyFrom_Ok policy this' h Ws Wd' E ltac:(cbn; nia)).
  destruct Ws, Wd. unfold this'. cbn.
  rewrite !copy_over_copy by nia. reflexivity.
Qed.

(** ** CopyParametersFrom *)

(** X13.  On a destination of full capacity, [CopyParametersFrom] returns
    exactly when the supplied sequences hold at least
    [num_spline_points * nu] parameters and [num_spline_points] times;
    shorter sequences are read past their end, and no error is reported. *)
Theorem CopyParametersFrom_returns_iff this (src_parameters src_times : list double) :
  Wellformed kMax this ->
  (exists this', CopyParametersFrom src_parameters src_times this = Ok this') <->
  num_spline_points this * nu (model this) <= Z.of_nat (length src_parameters) /\
  num_spline_points this <= Z.of_nat (length src_times).
Proof.
  intros W. split.
  - intros (this' & C). unfold CopyParametersFrom in C.
    apply bind_Ok in C. destruct C as (pa' & Hp & C).
    apply bind_Ok in C. destruct C as (ti' & Ht & _).
    apply mju_copy_Ok_inv in Hp, Ht. lia.
  - intros (SP & ST). destruct W. unfold CopyParametersFrom.
    rewrite (mju_copy_Ok (parameters this)) by nia.
    rewrite (mju_copy_Ok (times this)) by lia.
    cbn [bind]. eexists. reflexivity.
Qed.

(** X14.  Whenever [CopyParametersFrom] returns, the destination keeps its
    buffer sizes, so a policy of full capacity stays one. *)
Theorem CopyParametersFrom_preserves_invariants this this'
        (src_parameters src_times : list double) :
  Wellformed kMax this ->
  CopyParametersFrom src_parameters src_times this = Ok this' ->
  Wellformed kMax this'.
Proof.
  intros W C. unfold CopyParametersFrom in C.
  apply bind_Ok in C. destruct C as (pa' & Hp & C).
  apply bind_Ok in C. destruct C as (ti' & Ht & C).
  injection C as <-.
  apply mju_copy_length in Hp, Ht.
  destruct W. constructor; cbn; try assumption; congruence.
Qed.

(** X15.  The last copy wins: copying one pair of sequences and then
    another leaves the policy that copying the second pair alone leaves. *)
Theorem CopyParametersFrom_last_wins this
        (parameters1 times1 parameters2 times2 : list double) :
  Wellformed kMax this ->
  num_spline_points this * nu (model this) <= Z.of_nat (length parameters1) ->
  num_spline_points this <= Z.of_nat (length times1) ->
  num_spline_points this * nu (model this) <= Z.of_nat (length parameters2) ->
  num_spline_points this <= Z.of_nat (length times2) ->
  exists this1 this2,
    CopyParametersFrom parameters1 times1 this = Ok this1 /\
    CopyParametersFrom parameters2 times2 this1 = Ok this2 /\
    CopyParametersFrom parameters2 times2 this = Ok this2.
Proof.
  intros W P1 T1 P2 T2. destruct W. unfold CopyParametersFrom.
  rewrite (mju_copy_Ok (parameters this) parameters1) by nia.
  rewrite (mju_copy_Ok (times this) times1) by lia.
  rewrite (mju_copy_Ok (parameters this) parameters2) by nia.
  rewrite (mju_copy_Ok (times this) times2) by lia.
  cbn [bind]. eexists. eexists. split; [reflexivity|]. cbn.
  rewrite !mju_copy_Ok
    by (rewrite ?length_app, ?length_firstn, ?length_skipn; nia).
  cbn [bind]. rewrite !copy_over_copy by nia. split; reflexivity.
Qed.

(** ** Evaluation reads the active knots only *)

Lemma bind_ext {A B : Type} (m : outcome A) (f g : A -> outcome B) :
  (forall a : A, f a = g a) -> bind m f = bind m g.
Proof. intros H. destruct m; simpl; auto. Qed.

Lemma window_of_prefix (v : list double) (a b c : nat) :
  (b + a <= c)%nat ->
  firstn a (skipn b v) = firstn a (skipn b (firstn c v)).
Proof.
  intros H. apply nth_error_ext. intros i.
  rewrite !nth_error_firstn, !nth_error_skipn, nth_error_firstn.
  destruct (Nat.ltb_spec i a) as [L|L]; [|reflexivity].
  replace (b + i <? c)%nat with true by (symmetry; apply Nat.ltb_lt; lia).
  reflexivity.
Qed.

Lemma window_agree (v w : list double) (off len c : Z) :
  0 <= off -> 0 <= len -> off + len <= c ->
  c <= Z.of_nat (length v) -> c <= Z.of_nat (length w) ->
  firstn (Z.to_nat c) v = firstn (Z.to_nat c) w ->
  window v off len = window w off len.
Proof.
  intros H0 H1 H2 Lv Lw E.
  rewrite !window_Ok by lia. f_equal.
  rewrite (window_of_prefix v _ _ (Z.to_nat c)) by lia.
  rewrite (window_of_prefix w _ _ (Z.to_nat c)) by lia.
  now rewrite E.
Qed.

Lemma load_agree (v w : list double) (i c : Z) :
  0 <= i < c ->
  firstn (Z.to_nat c) v = firstn (Z.to_nat c) w ->
  load v i = load w i.
Proof.
  intros H E. unfold load.
  assert (N : forall u : list double,
             nth_error u (Z.to_nat i) = nth_error (firstn (Z.to_nat c) u) (Z.to_nat i)).
  { intros u. rewrite nth_error_firstn.
    replace (Z.to_nat i <? Z.to_nat c)%nat with true
      by (symmetry; apply Nat.ltb_lt; lia).
    reflexivity. }
  now rewrite (N v), (N w), E.
Qed.

Lemma firstn_copied_prefix (n : nat) (a v : list double) :
  (n <= length a)%nat ->
  firstn n (firstn n a ++ skipn n v) = firstn n a.
Proof.
  intros H. rewrite firstn_app, length_firstn.
  replace (Nat.min n (length a)) with n by lia.
  rewrite Nat.sub_diag, firstn_firstn, Nat.min_id. cbn [firstn].
  apply app_nil_r.
Qed.

(** Two policies with the same model, knot count and representation that
    agree on their active times and on the parameters of their active knots
    (of knot 0 when there is none) evaluate alike. *)
Lemma Action_reads_active p q (t : double) :
  slope_reads_active slope ->
  model p = model q ->
  num_spline_points p = num_spline_points q ->
  representation p = representation q ->
  0 <= nu (model p) ->
  0 <= num_spline_points p ->
  num_spline_points p <= Z.of_nat (length (times p)) ->
  num_spline_points p <= Z.of_nat (length (times q)) ->
  firstn (Z.to_nat (num_spline_points p)) (times p)
  = firstn (Z.to_nat (num_spline_points p)) (times q) ->
  nu (model p) * Z.max (num_spline_points p) 1 <= Z.of_nat (length (parameters p)) ->
  nu (model p) * Z.max (num_spline_points p) 1 <= Z.of_nat (length (parameters q)) ->
  firstn (Z.to_nat (nu (model p) * Z.max (num_spline_points p) 1)) (parameters p)
  = firstn (Z.to_nat (nu (model p) * Z.max (num_spline_points p) 1)) (parameters q) ->
  Action slope p t = Action slope q t.
Proof.
  intros SL Em En Er Hn N Tp Tq Et Pp Pq Ep.
  set (n := num_spline_points p) in *.
  set (d := nu (model p)) in *.
  assert (Ed : nu (model q) = d) by (unfold d; now rewrite Em).
  assert (Ec : actuator_ctrlrange (model q) = actuator_ctrlrange (model p))
    by now rewrite Em.
  assert (Fq : FindInterval (times q) t (num_spline_points q)
               = FindInterval (times p) t n).
  { rewrite <- En. fold n. rewrite !FindInterval_unfold by lia. now rewrite Et. }
  destruct (FindInterval (times p) t n) as [[i0 i1]| |] eqn:Fp;
    try (rewrite FindInterval_unfold in Fp by lia; discriminate).
  assert (I : 0 <= i0 /\ i0 <= i1 /\ i1 < Z.max n 1 /\ (i0 <> i1 -> i1 < n)).
  { destruct (Z.eq_dec n 0) as [Z0|Z0].
    - rewrite Z0, FindInterval_empty in Fp. injection Fp as <- <-. lia.
    - assert (N1 : 1 <= n) by lia.
      pose proof (FindInterval_indices _ _ _ _ _ N1 Fp). lia. }
  assert (Win : forall i : Z,
             0 <= i < Z.max n 1 ->
             window (parameters q) (d * i) d = window (parameters p) (d * i) d).
  { intros i Hi. symmetry.
    apply (window_agree _ _ _ _ (d * Z.max n 1)); try assumption; nia. }
  assert (Seg : i0 <> i1 ->
                linear_segment t (times q) (parameters q) d i0 i1
                = linear_segment t (times p) (parameters p) d i0 i1).
  { intros D. unfold linear_segment.
    rewrite (load_agree (times q) (times p) i0 n) by (try lia; now symmetry).
    rewrite (load_agree (times q) (times p) i1 n) by (try lia; now symmetry).
    rewrite (Win i0), (Win i1) by lia. reflexivity. }
  destruct (Z.eq_dec i0 i1) as [E|D].
  { rewrite (Action_hold_branch slope p t i0 i1 Fp (or_introl E)).
    rewrite (Action_hold_branch slope q t i0 i1 Fq (or_introl E)).
    rewrite Ed, Ec. fold d. rewrite Win by lia. reflexivity. }
  destruct (representation p) eqn:R.
  - assert (Rq : representation q = kZeroSpline) by congruence.
    rewrite (Action_hold_branch slope p t i0 i1 Fp (or_intror R)).
    rewrite (Action_hold_branch slope q t i0 i1 Fq (or_intror Rq)).
    rewrite Ed, Ec. fold d. rewrite Win by lia. reflexivity.
  - assert (Rq : representation q = kLinearSpline) by congruence.
    rewrite (Action_linear_branch slope p t i0 i1 Fp D R).
    rewrite (Action_linear_branch slope q t i0 i1 Fq D Rq).
    rewrite Ed, Ec. fold d. rewrite (Seg D). reflexivity.
  - assert (Rq : representation q = kCubicSpline) by congruence.
    rewrite (Action_cubic_branch slope p t i0 i1 Fp D R).
    rewrite (Action_cubic_branch slope q t i0 i1 Fq D Rq).
    rewrite <- En, Ed, Ec. fold n. fold d.
    destruct ((i0 =? 0) || (i1 =? n - 1)).
    + rewrite (Seg D). reflexivity.
    + f_equal. unfold cubic_segment.
      rewrite (load_agree (times q) (times p) i0 n) by (try lia; now symmetry).
      rewrite (load_agree (times q) (times p) i1 n) by (try lia; now symmetry).
      rewrite (Win i0), (Win i1) by lia.
      apply bind_ext. intros x0. apply bind_ext. intros x1.
      apply bind_ext. intros p0. apply bind_ext. intros p1.
      f_equal. apply map_ext. intros c.
      assert (Ep' : firstn (Z.to_nat (d * n)) (parameters p)
                    = firstn (Z.to_nat (d * n)) (parameters q)).
      { replace (Z.max n 1) with n in Ep by lia. exact Ep. }
      rewrite (SL (times p) (times q) (parameters p) (parameters q) d n i0 _ Et Ep').
      rewrite (SL (times p) (times q) (parameters p) (parameters q) d n i1 _ Et Ep').
      reflexivity.
Qed.

(** X16.  A copy evaluates like its source.  Between two policies of the
    same capacity that share their model, and for a derivative estimate that
    reads active knots only, [CopyFrom] with any horizon [0 <= h <= kMax]
    leaves a destination whose [Action] returns, at every query time, the
    action the source's [Action] returns: what the horizon leaves uncopied
    is never read by the evaluation. *)
Theorem CopyFrom_then_Action policy this (h : Z) :
  slope_reads_active slope ->
  Wellformed kMax policy ->
  Wellformed kMax this ->
  model this = model policy ->
  1 <= kMax ->
  0 <= h <= kMax ->
  exists this',
    CopyFrom policy h this = Ok this' /\
    forall t : double,
    exists action : list double,
      Action slope this' t = Ok action /\ Action slope policy t = Ok action.
Proof.
  intros SL Ws Wd Em K H.
  assert (E : nu (model policy) = nu (model this)) by now rewrite Em.
  pose proof (wf_nu _ _ Wd) as Hn.
  pose proof (CopyFrom_Ok policy this h Ws Wd E ltac:(nia)) as C.
  match type of C with _ = Ok ?q => set (this' := q) in * end.
  exists this'. split; [exact C|]. intros t.
  destruct (Action_total slope kMax policy t Ws K) as (v & _ & A).
  exists (clamped (model policy) v). split; [|exact A].
  rewrite <- A. destruct Ws, Wd.
  assert (P : firstn (Z.to_nat (num_parameters policy)) (parameters policy)
              ++ skipn (Z.to_nat (num_parameters policy)) (parameters this)
              = parameters policy).
  { replace (Z.to_nat (num_parameters policy)) with (length (parameters this)) by nia.
    apply copy_whole. nia. }
  apply Action_reads_active; unfold this';
    cbn [model num_spline_points representation times parameters];
    rewrite ?P; try assumption; try reflexivity.
  - lia.
  - rewrite length_app, length_firstn, length_skipn. lia.
  - lia.
  - apply firstn_copied_prefix. lia.
  - nia.
  - nia.
Qed.

(** X17.  Loading a policy's parameters and times into another policy makes
    the two evaluate alike only as far as the rest agrees:
    [CopyParametersFrom] copies neither the knot count nor the
    representation.  When destination and source share the model, the knot
    count (at least one) and the representation, the destination's [Action]
    afterwards returns, at every query time, the action of the source. *)
Theorem CopyParametersFrom_then_Action policy this :
  slope_reads_active slope ->
  Wellformed kMax policy ->
  Wellformed kMax this ->
  model this = model policy ->
  num_spline_points this = num_spline_points policy ->
  representation this = representation policy ->
  1 <= num_spline_points this ->
  exists this',
    CopyParametersFrom (parameters policy) (times policy) this = Ok this' /\
    forall t : double,
    exists action : list double,
      Action slope this' t = Ok action /\ Action slope policy t = Ok action.
Proof.
  intros SL Ws Wd Em En Er N.
  pose proof (wf_nu _ _ Wd) as Hn.
  assert (K : 1 <= kMax) by (pose proof (wf_num_spline_points _ _ Wd); lia).
  destruct Ws, Wd. unfold CopyParametersFrom.
  rewrite (mju_copy_Ok (parameters this)) by (rewrite <- ?Em in *; nia).
  rewrite (mju_copy_Ok (times this)) by lia.
  cbn [bind]. eexists. split; [reflexivity|]. intros t.
  assert (Ws : Wellformed kMax policy) by (constructor; assumption).
  destruct (Action_total slope kMax policy t Ws K) as (v & _ & A).
  exists (clamped (model policy) v). split; [|exact A].
  rewrite <- A.
  apply Action_reads_active; try assumption; cbn;
    rewrite ?length_app, ?length_firstn, ?length_skipn;
    rewrite ?Z.max_l by lia; rewrite <- ?Em in *; try nia.
  - apply firstn_copied_prefix. lia.
  - replace (nu (model this) * num_spline_points this)
      with (num_spline_points this * nu (model this)) by lia.
    apply firstn_copied_prefix. nia.
Qed.

End Lifecycle.

(** * The life cycle at sample policies *)

(** Allocation of the unallocated sample for one actuator, capacity 2, with
    no configuration key set. *)
Lemma Allocate_establishes_invariants_witness :
  exists q,
    Allocate 2 Trajectory_Initialize_unit Trajectory_Allocate_unit
             spline_points_default representation_default
             one_actuator three_residuals 2 unallocated = Ok q /\
    Wellformed 2 q /\
    model q = one_actuator /\
    trajectory q = tt /\
    num_parameters q = nu one_actuator * 2 /\
    num_spline_points q = spline_points_default 2 one_actuator /\
    representation q = representation_default kLinearSpline one_actuator.
Proof.
  assert (Hqv : INT_MIN <= nq one_actuator + nv one_actuator <= INT_MAX)
    by (cbn; unfold INT_MIN, INT_MAX; lia).
  assert (Hs : INT_MIN <= nq one_actuator + nv one_actuator + na one_actuator
               <= INT_MAX)
    by (cbn; unfold INT_MIN, INT_MAX; lia).
  assert (Hn : 0 <= nu one_actuator) by (cbn; lia).
  assert (Hk : 0 <= 2) by lia.
  assert (Ho : nu one_actuator * 2 <= INT_MAX) by (cbn; unfold INT_MAX; lia).
  assert (Hc : 0 <= spline_points_default 2 one_actuator <= 2)
    by (unfold spline_points_default; lia).
  exact (Allocate_establishes_invariants
           2 Trajectory_Initialize_unit Trajectory_Allocate_unit
           spline_points_default representation_default
           one_actuator three_residuals 2 unallocated tt tt
           Hqv Hs Hn Hk Ho eq_refl Hc eq_refl eq_refl).
Defined.

(** Allocation with capacity 4 over the two-knot sample: entry 1 of
    [parameters] is still 4, entry 3 is zero. *)
Lemma Allocate_buffer_contents_witness :
  exists q,
    Allocate 4 Trajectory_Initialize_unit Trajectory_Allocate_unit
             spline_points_default representation_default
             one_actuator three_residuals 4 (two_knots kLinearSpline) = Ok q /\
    nth_error (parameters q) 1 = Some (dnum 4) /\
    nth_error (parameters q) 3 = Some d_zero.
Proof.
  assert (Hqv : INT_MIN <= nq one_actuator + nv one_actuator <= INT_MAX)
    by (cbn; unfold INT_MIN, INT_MAX; lia).
  assert (Hs : INT_MIN <= nq one_actuator + nv one_actuator + na one_actuator
               <= INT_MAX)
    by (cbn; unfold INT_MIN, INT_MAX; lia).
  assert (Hn : 0 <= nu one_actuator) by (cbn; lia).
  assert (Hk : 0 <= 4) by lia.
  assert (Ho : nu one_actuator * 4 <= INT_MAX) by (cbn; unfold INT_MAX; lia).
  destruct (Allocate_buffer_contents
              4 Trajectory_Initialize_unit Trajectory_Allocate_unit
              spline_points_default representation_default
              one_actuator three_residuals 4 (two_knots kLinearSpline) tt tt
              Hqv Hs Hn Hk Ho eq_refl eq_refl) as (q & A & C).
  exists q. split; [exact A|]. split.
  - exact (proj1 (proj2 (C 1%nat))).
  - exact (proj1 (proj2 (C 3%nat))).
Defined.

(** Allocating the two-knot sample again with the capacity it has. *)
Lemma Allocate_again_witness :
  exists q,
    Allocate 2 Trajectory_Initialize_unit Trajectory_Allocate_unit
             spline_points_default representation_default
             one_actuator three_residuals 2 (two_knots kCubicSpline) = Ok q /\
    k q = k (two_knots kCubicSpline) /\
    parameters q = parameters (two_knots kCubicSpline) /\
    parameter_update q = parameter_update (two_knots kCubicSpline) /\
    times q = times (two_knots kCubicSpline) /\
    num_parameters q = num_parameters (two_knots kCubicSpline).
Proof.
  assert (W : Wellformed 2 (two_knots kCubicSpline)) by wellformed.
  assert (Hqv : INT_MIN <= nq one_actuator + nv one_actuator <= INT_MAX)
    by (cbn; unfold INT_MIN, INT_MAX; lia).
  assert (Hs : INT_MIN <= nq one_actuator + nv one_actuator + na one_actuator
               <= INT_MAX)
    by (cbn; unfold INT_MIN, INT_MAX; lia).
  assert (Ho : nu one_actuator * 2 <= INT_MAX) by (cbn; unfold INT_MAX; lia).
  exact (Allocate_again
           2 Trajectory_Initialize_unit Trajectory_Allocate_unit
           spline_points_default representation_default
           one_actuator three_residuals 2 (two_knots kCubicSpline) tt tt
           W eq_refl Hqv Hs Ho eq_refl eq_refl).
Defined.

(** The two-knot sample, capacity 2: horizon 3 does not return, horizon 2
    does. *)
Lemma Reset_returns_iff_witness :
  ((exists p', Reset Trajectory_Reset_unit 3 (two_knots kLinearSpline) = Ok p')
   <-> 0 <= 3 <= 2) /\
  ((exists p', Reset Trajectory_Reset_unit 2 (two_knots kLinearSpline) = Ok p')
   <-> 0 <= 2 <= 2).
Proof.
  assert (W : Wellformed 2 (two_knots kLinearSpline)) by wellformed.
  split.
  - exact (Reset_returns_iff Trajectory_Reset_unit 2 (two_knots kLinearSpline)
                             3 tt W eq_refl).
  - exact (Reset_returns_iff Trajectory_Reset_unit 2 (two_knots kLinearSpline)
                             2 tt W eq_refl).
Defined.

(** Horizon 0 on the sample without knots. *)
Lemma Reset_zero_horizon_witness :
  Reset Trajectory_Reset_unit 0 no_knots = Ok (with_trajectory tt no_knots).
Proof.
  exact (Reset_zero_horizon Trajectory_Reset_unit no_knots tt eq_refl).
Defined.

(** Horizon 1 on the two-knot sample: still two active knots afterwards. *)
Lemma Reset_preserves_invariants_witness :
  exists p',
    Reset Trajectory_Reset_unit 1 (two_knots kLinearSpline) = Ok p' /\
    Wellformed 2 p' /\
    model p' = model (two_knots kLinearSpline) /\
    num_spline_points p' = num_spline_points (two_knots kLinearSpline) /\
    num_parameters p' = num_parameters (two_knots kLinearSpline) /\
    representation p' = representation (two_knots kLinearSpline).
Proof.
  assert (W : Wellformed 2 (two_knots kLinearSpline)) by wellformed.
  eexists. split; [reflexivity|].
  exact (Reset_preserves_invariants Trajectory_Reset_unit 2
                                    (two_knots kLinearSpline) _ 1 W eq_refl).
Defined.

(** Horizon 3 and then horizon 1 on the four-knot sample. *)
Lemma Reset_twice_witness :
  exists p1 p2,
    Reset Trajectory_Reset_unit 3 (four_knots kLinearSpline) = Ok p1 /\
    Reset Trajectory_Reset_unit 1 p1 = Ok p2 /\
    prefix_zeroed (Z.max 3 1 * nu (model (four_knots kLinearSpline)))
                  (k (four_knots kLinearSpline)) (k p2) /\
    prefix_zeroed (Z.max 3 1 * nu (model (four_knots kLinearSpline)))
                  (parameters (four_knots kLinearSpline)) (parameters p2) /\
    prefix_zeroed (Z.max 3 1 * nu (model (four_knots kLinearSpline)))
                  (parameter_update (four_knots kLinearSpline))
                  (parameter_update p2) /\
    prefix_zeroed (Z.max 3 1) (times (four_knots kLinearSpline)) (times p2).
Proof.
  assert (W : Wellformed 4 (four_knots kLinearSpline)) by wellformed.
  assert (H1 : 0 <= 3 <= 4) by lia.
  assert (H2 : 0 <= 1 <= 4) by lia.
  exact (Reset_twice Trajectory_Reset_unit 4 (four_knots kLinearSpline) 3 1 tt tt
                     W H1 H2 eq_refl eq_refl).
Defined.

(** The two-knot sample copied, with horizon 0, over the sample with a
    repeated first knot. *)
Lemma CopyFrom_whole_parameters_witness :
  exists this',
    CopyFrom (two_knots kCubicSpline) 0 repeated_first_knot = Ok this' /\
    parameters this' = parameters (two_knots kCubicSpline) /\
    parameter_update this' = parameter_update (two_knots kCubicSpline).
Proof.
  assert (Ws : Wellformed 2 (two_knots kCubicSpline)) by wellformed.
  assert (Wd : Wellformed 2 repeated_first_knot) by wellformed.
  assert (H : 0 <= 0 <= 2) by lia.
  exact (CopyFrom_whole_parameters 2 (two_knots kCubicSpline) repeated_first_knot 0
                                   Ws Wd eq_refl H).
Defined.

Lemma CopyFrom_preserves_invariants_witness :
  exists this',
    CopyFrom (two_knots kCubicSpline) 1 repeated_first_knot = Ok this' /\
    Wellformed 2 this' /\ model this' = model repeated_first_knot.
Proof.
  assert (Ws : Wellformed 2 (two_knots kCubicSpline)) by wellformed.
  assert (Wd : Wellformed 2 repeated_first_knot) by wellformed.
  eexists. split; [reflexivity|].
  exact (CopyFrom_preserves_invariants 2 (two_knots kCubicSpline)
                                       repeated_first_knot _ 1 Ws Wd eq_refl eq_refl).
Defined.

(** Capacity 2 and one actuator: horizon 3 does not return. *)
Lemma CopyFrom_returns_iff_witness :
  (exists this', CopyFrom (two_knots kCubicSpline) 3 repeated_first_knot = Ok this')
  <-> 0 <= 3 * nu (model repeated_first_knot)
      <= nu (model repeated_first_knot) * 2.
Proof.
  assert (Ws : Wellformed 2 (two_knots kCubicSpline)) by wellformed.
  assert (Wd : Wellformed 2 repeated_first_knot) by wellformed.
  exact (CopyFrom_returns_iff 2 (two_knots kCubicSpline) repeated_first_knot 3
                              Ws Wd eq_refl).
Defined.

(** The four-knot sample copied into the two-knot sample. *)
Lemma CopyFrom_larger_source_witness :
  CopyFrom (four_knots kLinearSpline) 1 (two_knots kLinearSpline) = Undefined.
Proof.
  assert (Ws : Wellformed 4 (four_knots kLinearSpline)) by wellformed.
  assert (Wd : Wellformed 2 (two_knots kLinearSpline)) by wellformed.
  assert (N : 0 < nu (model (two_knots kLinearSpline))) by (cbn; lia).
  assert (K : 2 < 4) by lia.
  exact (CopyFrom_larger_source 2 (four_knots kLinearSpline)
                                (two_knots kLinearSpline) 1 4 Ws Wd eq_refl N K).
Defined.

Lemma CopyFrom_idempotent_witness :
  exists this',
    CopyFrom (two_knots kCubicSpline) 1 repeated_first_knot = Ok this' /\
    CopyFrom (two_knots kCubicSpline) 1 this' = Ok this'.
Proof.
  assert (Ws : Wellformed 2 (two_knots kCubicSpline)) by wellformed.
  assert (Wd : Wellformed 2 repeated_first_knot) by wellformed.
  assert (H : 0 <= 1 <= 2) by lia.
  exact (CopyFrom_idempotent 2 (two_knots kCubicSpline) repeated_first_knot 1
                             Ws Wd eq_refl H).
Defined.

(** Two knots of one actuator need two parameters: one is not enough. *)
Lemma CopyParametersFrom_returns_iff_witness :
  (exists this',
      CopyParametersFrom [dnum 1] [d_zero; dnum 2] (two_knots kLinearSpline)
      = Ok this')
  <-> num_spline_points (two_knots kLinearSpline)
      * nu (model (two_knots kLinearSpline))
      <= Z.of_nat (length [dnum 1]) /\
      num_spline_points (two_knots kLinearSpline)
      <= Z.of_nat (length [d_zero; dnum 2]).
Proof.
  assert (W : Wellformed 2 (two_knots kLinearSpline)) by wellformed.
  exact (CopyParametersFrom_returns_iff 2 (two_knots kLinearSpline)
                                        [dnum 1] [d_zero; dnum 2] W).
Defined.

Lemma CopyParametersFrom_preserves_invariants_witness :
  exists this',
    CopyParametersFrom [dnum 1; dnum 3] [d_zero; dnum 2] (two_knots kLinearSpline)
    = Ok this' /\
    Wellformed 2 this'.
Proof.
  assert (W : Wellformed 2 (two_knots kLinearSpline)) by wellformed.
  eexists. split; [reflexivity|].
  exact (CopyParametersFrom_preserves_invariants
           2 (two_knots kLinearSpline) _ [dnum 1; dnum 3] [d_zero; dnum 2]
           W eq_refl).
Defined.

Lemma CopyParametersFrom_last_wins_witness :
  exists this1 this2,
    CopyParametersFrom [dnum 1; dnum 3] [d_zero; dnum 2] (two_knots kLinearSpline)
    = Ok this1 /\
    CopyParametersFrom [dnum 9; dnum 8; dnum 7] [dnum 1; dnum 5] this1 = Ok this2 /\
    CopyParametersFrom [dnum 9; dnum 8; dnum 7] [dnum 1; dnum 5]
                       (two_knots kLinearSpline) = Ok this2.
Proof.
  assert (W : Wellformed 2 (two_knots kLinearSpline)) by wellformed.
  apply (CopyParametersFrom_last_wins 2 (two_knots kLinearSpline)
                                      [dnum 1; dnum 3] [d_zero; dnum 2]
                                      [dnum 9; dnum 8; dnum 7] [dnum 1; dnum 5] W);
    cbn; lia.
Defined.

(** The two-knot sample in cubic representation copied, with horizon 0,
    over the sample with a repeated first knot. *)
Lemma CopyFrom_then_Action_witness :
  exists this',
    CopyFrom (two_knots kCubicSpline) 0 repeated_first_knot = Ok this' /\
    forall t : double,
    exists action : list double,
      Action slope_zero this' t = Ok action /\
      Action slope_zero (two_knots kCubicSpline) t = Ok action.
Proof.
  assert (SL : slope_reads_active slope_zero) by (intros ? ? ? ? ? ? ? ? ? ?; reflexivity).
  assert (Ws : Wellformed 2 (two_knots kCubicSpline)) by wellformed.
  assert (Wd : Wellformed 2 repeated_first_knot) by wellformed.
  assert (K : 1 <= 2) by lia.
  assert (H : 0 <= 0 <= 2) by lia.
  exact (CopyFrom_then_Action slope_zero 2 (two_knots kCubicSpline)
                              repeated_first_knot 0 SL Ws Wd eq_refl K H).
Defined.

(** The parameters and times of the two-knot sample loaded into the sample
    with a repeated first knot, both in linear representation. *)
Lemma CopyParametersFrom_then_Action_witness :
  exists this',
    CopyParametersFrom (parameters (two_knots kLinearSpline))
                       (times (two_knots kLinearSpline)) repeated_first_knot
    = Ok this' /\
    forall t : double,
    exists action : list double,
      Action slope_zero this' t = Ok action /\
      Action slope_zero (two_knots kLinearSpline) t = Ok action.
Proof.
  assert (SL : slope_reads_active slope_zero) by (intros ? ? ? ? ? ? ? ? ? ?; reflexivity).
  assert (Ws : Wellformed 2 (two_knots kLinearSpline)) by wellformed.
  assert (Wd : Wellformed 2 repeated_first_knot) by wellformed.
  assert (N : 1 <= num_spline_points repeated_first_knot) by (cbn; lia).
  exact (CopyParametersFrom_then_Action slope_zero 2 (two_knots kLinearSpline)
                                        repeated_first_knot SL Ws Wd
                                        eq_refl eq_refl eq_refl N).
Defined.
